(** * acme-standings: the league store, result ingestion and the ranked views

    A shallow embedding of [src/main.py]: the three tables (players, events,
    results), the scoring table, the SQLAlchemy session as far as the
    handlers use it (query, add, commit, refresh), and the handlers
    [read_standings], [read_events], [event_detail], [create_event] and
    [upload_results]. *)

From Stdlib Require Import ZArith Lia Ascii.
From stdpp Require Import base option list sorting strings pretty gmap.

Local Open Scope Z_scope.

(** ** Python values the handlers compute with *)

(** The exceptions that leave a handler. *)
Inductive exn :=
  | ValueError
  | OverflowError
  | HTTPException (status_code : Z) (detail : string).

Inductive outcome (A : Type) :=
  | Returned (a : A)
  | Raised (e : exn).
Arguments Returned {A} a.
Arguments Raised {A} e.

Module Py.

(** A [str] is a [string] of code points below 256.  [str.isspace] on
    that range: TAB..CR, FS..US, SPACE, NEL and NBSP. *)
Definition isspace (c : ascii) : bool :=
  let n := Z.of_N (N_of_ascii c) in
  ((9 <=? n) && (n <=? 13)) || ((28 <=? n) && (n <=? 32))
  || (n =? 133) || (n =? 160).

(** The whitespace [int] skips around a literal: the C-locale spaces
    TAB..CR and SPACE, and the non-ASCII spaces NEL and NBSP; not FS..US. *)
Definition int_isspace (c : ascii) : bool :=
  let n := Z.of_N (N_of_ascii c) in
  ((9 <=? n) && (n <=? 13)) || (n =? 32) || (n =? 133) || (n =? 160).

Fixpoint lstrip_with (space : ascii → bool) (s : string) : string :=
  match s with
  | EmptyString => EmptyString
  | String c s' => if space c then lstrip_with space s' else s
  end.

Definition strip_with (space : ascii → bool) (s : string) : string :=
  String.rev (lstrip_with space (String.rev (lstrip_with space s))).

(** [s.strip()] *)
Definition strip (s : string) : string := strip_with isspace s.

Definition digit (c : ascii) : option Z :=
  let n := Z.of_N (N_of_ascii c) in
  if (48 <=? n) && (n <=? 57) then Some (n - 48) else None.

(** Decimal digits, with single underscores allowed between two digits.
    [after_digit] tells whether the previous character was a digit. *)
Fixpoint digits (acc : Z) (after_digit : bool) (s : string) : option Z :=
  match s with
  | EmptyString => if after_digit then Some acc else None
  | String c s' =>
      match digit c with
      | Some d => digits (10 * acc + d) true s'
      | None =>
          if bool_decide (c = "_"%char) && after_digit
          then digits acc false s'
          else None
      end
  end.

(** [int(s)] for a [str] argument, base 10: surrounding whitespace is
    dropped, then an optional sign, then the digits.  [None] stands for
    the [ValueError] of a literal that is not an integer.  (The
    interpreter's configurable cap on the number of digits of a literal is
    left out.) *)
Definition int (s : string) : option Z :=
  match strip_with int_isspace s with
  | String "+" r => digits 0 false r
  | String "-" r => Z.opp <$> digits 0 false r
  | r => digits 0 false r
  end.

(** [s.split(sep)] for a one-character separator. *)
Fixpoint split (sep : ascii) (s : string) : list string :=
  match s with
  | EmptyString => [EmptyString]
  | String c s' =>
      if bool_decide (c = sep) then EmptyString :: split sep s'
      else match split sep s' with
           | [] => [String c EmptyString]
           | w :: ws => String c w :: ws
           end
  end.

(** [x or None] on an optional form field: the empty string is falsy. *)
Definition or_None (x : option string) : option string :=
  match x with
  | Some EmptyString => None
  | _ => x
  end.

End Py.

(** ** [datetime.date] *)

Record date := Date { year : Z; month : Z; day : Z }.

Global Instance date_eq_dec : EqDecision date.
Proof. solve_decision. Defined.

Definition is_leap (y : Z) : bool :=
  (y mod 4 =? 0) && (negb (y mod 100 =? 0) || (y mod 400 =? 0)).

Definition days_in_month (y m : Z) : Z :=
  if bool_decide (m = 2) then (if is_leap y then 29 else 28)
  else if bool_decide (m ∈ [4; 6; 9; 11]) then 30
  else 31.

Definition fits_c_int (z : Z) : bool := (- 2 ^ 31 <=? z) && (z <? 2 ^ 31).

(** [date(y, m, d)]: the arguments are converted to C ints first, then the
    calendar ranges are checked. *)
Definition date_ymd (y m d : Z) : outcome date :=
  if negb (fits_c_int y && fits_c_int m && fits_c_int d) then Raised OverflowError
  else if (1 <=? y) && (y <=? 9999) && (1 <=? m) && (m <=? 12)
          && (1 <=? d) && (d <=? days_in_month y m)
  then Returned (Date y m d)
  else Raised ValueError.

(** [y, m, d = [int(x) for x in event_date.split("-")]; date(y, m, d)] *)
Definition parse_event_date (event_date : string) : outcome date :=
  match mapM Py.int (Py.split "-" event_date) with
  | Some [y; m; d] => date_ymd y m d
  | _ => Raised ValueError
  end.

(** Dates are stored as zero-padded ISO text, whose order is the order of
    (year, month, day). *)
Definition date_le (a b : date) : Prop :=
  year a < year b
  ∨ (year a = year b ∧ (month a < month b ∨ (month a = month b ∧ day a ≤ day b))).

Definition date_lt (a b : date) : Prop :=
  year a < year b
  ∨ (year a = year b ∧ (month a < month b ∨ (month a = month b ∧ day a < day b))).

Global Instance date_le_dec : RelDecision date_le.
Proof. intros a b. unfold date_le. apply _. Defined.

Global Instance date_lt_dec : RelDecision date_lt.
Proof. intros a b. unfold date_lt. apply _. Defined.

(** ** The tables *)

Module Player.
Record t := mk { id : Z; name : string }.
End Player.

Module Event.
Record t := mk {
  id : Z;
  name : string;
  event_date : date;
  start_time : option string;
  location : option string;
  format : option string;
  registration_url : option string;
  description : option string;
}.
End Event.

Module Result.
Record t := mk {
  id : Z;
  event_id : Z;
  player_id : Z;
  position : Z;
  points : Z;
}.
End Result.

Global Instance Player_eq_dec : EqDecision Player.t.
Proof. solve_decision. Defined.
Global Instance Event_eq_dec : EqDecision Event.t.
Proof. solve_decision. Defined.
Global Instance Result_eq_dec : EqDecision Result.t.
Proof. solve_decision. Defined.

(** The database file: each table is the list of its rows in rowid order. *)
Record DB := {
  players : list Player.t;
  events : list Event.t;
  results : list Result.t;
}.

(** [Base.metadata.create_all] on a new file. *)
Definition empty_db : DB := {| players := []; events := []; results := [] |}.

(** An [INTEGER PRIMARY KEY] column left unset takes the largest rowid of
    the table plus one, and 1 in an empty table. *)
Definition next_id (ids : list Z) : Z := foldr Z.max 0 ids + 1.

(** SQLite stores a signed 64-bit INTEGER; binding a larger Python int
    raises [OverflowError]. *)
Definition fits_sqlite_int (z : Z) : bool := (- 2 ^ 63 <=? z) && (z <? 2 ^ 63).

(** ** The scoring table *)

(** F1-like points *)
Definition POINTS_TABLE : gmap Z Z :=
  list_to_map
    [(1, 25); (2, 18); (3, 15); (4, 12); (5, 10);
     (6, 8); (7, 6); (8, 4); (9, 2); (10, 1)].

(** [POINTS_TABLE.get(position, 0)] *)
Definition points_for (position : Z) : Z := default 0 (POINTS_TABLE !! position).

(** ** The session *)

(** A [Result] object between [db.add] and its INSERT: it has no id yet. *)
Module NewResult.
Record t := mk {
  event_id : Z;
  player_id : Z;
  position : Z;
  points : Z;
}.
End NewResult.

(** [SessionLocal()], with [autoflush=False]: the database file and the
    added objects waiting for the next commit.  In this program a [Player]
    or an [Event] is committed in the statement after its [db.add], so only
    [Result] objects ever wait. *)
Record Session := {
  store : DB;
  new : list NewResult.t;
}.

(** A handler step: it reads and changes the session, and returns or raises. *)
Definition M (A : Type) : Type := Session → Session * outcome A.

Global Instance M_ret : MRet M := λ A a s, (s, Returned a).

Global Instance M_bind : MBind M := λ A B f m s,
  match m s with
  | (s', Returned a) => f a s'
  | (s', Raised e) => (s', Raised e)
  end.

Definition lift {A} (o : outcome A) : M A := λ s, (s, o).

Definition raise {A} (e : exn) : M A := lift (Raised e).

(** [db.query(...)]: it reads the database file and, without autoflush,
    does not see the waiting objects. *)
Definition query {A} (q : DB → A) : M A := λ s, (s, Returned (q (store s))).

(** [for x in l: body] *)
Fixpoint for_each {A} (l : list A) (body : A → M unit) : M unit :=
  match l with
  | [] => mret ()
  | x :: l' => body x ;; for_each l' body
  end.

(** The row an INSERT stores for a waiting result. *)
Definition inserted (id : Z) (n : NewResult.t) : Result.t :=
  Result.mk id (NewResult.event_id n) (NewResult.player_id n)
    (NewResult.position n) (NewResult.points n).

(** The INSERTs of the waiting results, in the order of their [db.add]. *)
Fixpoint insert_results (pending : list NewResult.t) (rs : list Result.t)
    : list Result.t :=
  match pending with
  | [] => rs
  | n :: pending' =>
      insert_results pending' (rs ++ [inserted (next_id (Result.id <$> rs)) n])
  end.

(** The flush of a commit.  It runs in one transaction: when a position
    does not fit the INTEGER column nothing of the flush is kept.  (The
    other bound values are rowids and entries of [POINTS_TABLE].) *)
Definition flush (s : Session) : outcome (list Result.t) :=
  if forallb (λ n, fits_sqlite_int (NewResult.position n)) (new s)
  then Returned (insert_results (new s) (results (store s)))
  else Raised OverflowError.

(** [db.add(result)] *)
Definition add (r : NewResult.t) : M unit := λ s,
  ({| store := store s; new := new s ++ [r] |}, Returned ()).

(** [db.commit()] *)
Definition commit : M unit := λ s,
  match flush s with
  | Returned rs =>
      ({| store := {| players := players (store s);
                      events := events (store s);
                      results := rs |};
          new := [] |}, Returned ())
  | Raised e => (s, Raised e)
  end.

(** [player = Player(name=name); db.add(player); db.commit();
    db.refresh(player)].  The flush inserts the player and the waiting
    results together.  (The UNIQUE index on the name cannot reject the
    INSERT: the handler gets here only after a query for that name found
    no row.) *)
Definition add_commit_refresh_player (name : string) : M Player.t := λ s,
  match flush s with
  | Returned rs =>
      let player := Player.mk (next_id (Player.id <$> players (store s))) name in
      ({| store := {| players := players (store s) ++ [player];
                      events := events (store s);
                      results := rs |};
          new := [] |}, Returned player)
  | Raised e => (s, Raised e)
  end.

(** [event = Event(...); db.add(event); db.commit(); db.refresh(event)] *)
Definition add_commit_refresh_event (name : string) (event_date : date)
    (start_time location format registration_url description : option string)
    : M Event.t := λ s,
  match flush s with
  | Returned rs =>
      let event :=
        Event.mk (next_id (Event.id <$> events (store s))) name event_date
          start_time location format registration_url description in
      ({| store := {| players := players (store s);
                      events := events (store s) ++ [event];
                      results := rs |};
          new := [] |}, Returned event)
  | Raised e => (s, Raised e)
  end.

(** A request: [get_db] opens a session for the handler and closes it on
    every exit, which drops what was added and not committed. *)
Definition run {A} (handler : M A) (db : DB) : DB * outcome A :=
  let '(s, o) := handler {| store := db; new := [] |} in (store s, o).

(** ** The handlers *)

Inductive Response :=
  | RedirectResponse (url : string) (status_code : Z).

Definition sum_points (rs : list Result.t) : Z :=
  foldr (λ r acc, Result.points r + acc) 0 rs.

(** [ORDER BY sum(results.points) DESC, players.name ASC] *)
Definition standings_le (a b : string * Z) : Prop :=
  b.2 < a.2 ∨ (a.2 = b.2 ∧ String.le a.1 b.1).

Global Instance standings_le_dec : RelDecision standings_le.
Proof. intros a b. unfold standings_le. apply _. Defined.

(** [players JOIN results ON players.id = results.player_id GROUP BY
    players.id], selecting the name and the sum of the points.
    [players.id] is the primary key, so the groups are the players that
    join with at least one result. *)
Definition group_of (rs : list Result.t) (p : Player.t) : list (string * Z) :=
  let joined := filter (λ r, Result.player_id r = Player.id p) rs in
  match joined with
  | [] => []
  | _ :: _ => [(Player.name p, sum_points joined)]
  end.

Definition standings_groups (db : DB) : list (string * Z) :=
  p ← players db; group_of (results db) p.

(** GET / *)
Definition read_standings : M (list (string * Z)) :=
  standings ← query (λ db, merge_sort standings_le (standings_groups db));
  mret standings.

(** [ORDER BY events.event_date ASC] and [... DESC] *)
Definition event_date_asc (a b : Event.t) : Prop :=
  date_le (Event.event_date a) (Event.event_date b).

Definition event_date_desc (a b : Event.t) : Prop :=
  date_le (Event.event_date b) (Event.event_date a).

Global Instance event_date_asc_dec : RelDecision event_date_asc.
Proof. intros a b. unfold event_date_asc. apply _. Defined.

Global Instance event_date_desc_dec : RelDecision event_date_desc.
Proof. intros a b. unfold event_date_desc. apply _. Defined.

(** GET /events, with [today] the value of [date.today()]. *)
Definition read_events (today : date) : M (list Event.t * list Event.t) :=
  upcoming_events ← query (λ db,
    merge_sort event_date_asc
      (filter (λ e, date_le today (Event.event_date e)) (events db)));
  past_events ← query (λ db,
    merge_sort event_date_desc
      (filter (λ e, date_lt (Event.event_date e) today) (events db)));
  mret (upcoming_events, past_events).

(** [results JOIN players ON players.id = results.player_id]: a result
    together with the row its [player] relationship loads. *)
Definition join_player (rs : list Result.t) (ps : list Player.t)
    : list (Result.t * Player.t) :=
  r ← rs;
  p ← filter (λ p, Player.id p = Result.player_id r) ps;
  [(r, p)].

(** [ORDER BY results.position ASC] *)
Definition position_le (a b : Result.t * Player.t) : Prop :=
  Result.position a.1 ≤ Result.position b.1.

Global Instance position_le_dec : RelDecision position_le.
Proof. intros a b. unfold position_le. apply _. Defined.

(** GET /events/{event_id} *)
Definition event_detail (event_id : Z)
    : M (Event.t * list (Result.t * Player.t)) :=
  event ← query (λ db, head (filter (λ e, Event.id e = event_id) (events db)));
  match event with
  | None => raise (HTTPException 404 "Event not found")
  | Some event =>
      results ← query (λ db,
        merge_sort position_le
          (filter (λ rp, Result.event_id rp.1 = event_id)
             (join_player (results db) (players db))));
      mret (event, results)
  end.

(** POST /admin/events/new *)
Definition create_event (name event_date : string)
    (start_time location format registration_url description : option string)
    : M Response :=
  ev_date ← lift (parse_event_date event_date);
  event ← add_commit_refresh_event name ev_date
    (Py.or_None start_time) (Py.or_None location) (Py.or_None format)
    (Py.or_None registration_url) (Py.or_None description);
  mret (RedirectResponse ("/events/" +:+ pretty (Event.id event)) 303).

(** A row of [csv.DictReader] over the decoded upload: the texts of its
    [player] and [position] columns. *)
Module CsvRow.
Record t := mk { player : string; position : string }.
End CsvRow.

(** [int(row["position"])] *)
Definition int_or_raise (s : string) : M Z :=
  match Py.int s with
  | Some z => mret z
  | None => raise ValueError
  end.

(** [db.query(Event).filter(Event.name == event_name,
    Event.event_date == ev_date).first()] *)
Definition find_event (event_name : string) (ev_date : date)
    : M (option Event.t) :=
  query (λ db,
    head (filter (λ e, Event.name e = event_name ∧ Event.event_date e = ev_date)
            (events db))).

(** [db.query(Player).filter_by(name=player_name).first()] *)
Definition find_player (player_name : string) : M (option Player.t) :=
  query (λ db, head (filter (λ p, Player.name p = player_name) (players db))).


(** The find-or-create of a player, lines 254-260. *)
Definition resolve_player (player_name : string) : M Player.t :=
  player ← find_player player_name;
  match player with
  | Some player => mret player
  | None => add_commit_refresh_player player_name
  end.

(** The body of the [for row in reader] loop, lines 250-270. *)
Definition upload_row (event : Event.t) (row : CsvRow.t) : M unit :=
  let player_name := Py.strip (CsvRow.player row) in
  position ← int_or_raise (CsvRow.position row);
  player ← resolve_player player_name;
  let points := points_for position in
  add (NewResult.mk (Event.id event) (Player.id player) position points).

(** POST /admin/upload.  The statements of the body are taken with the
    nesting their indentation gives them: the CSV loop, the last commit and
    the redirect all sit inside [if not event:], after the creation of the
    event.  With an event found, the handler runs off its end and returns
    [None]. *)
Definition upload_results (event_name event_date : string) (file : list CsvRow.t)
    : M (option Response) :=
  ev_date ← lift (parse_event_date event_date);
  event ← find_event event_name ev_date;
  match event with
  | Some _ => mret None
  | None =>
      event ← add_commit_refresh_event event_name ev_date None None None None None;
      for_each file (upload_row event);;
      commit;;
      mret (Some (RedirectResponse "/" 303))
  end.

(** The database files the program can produce: it starts from the empty
    tables and changes only through the two POST handlers. *)
Inductive reachable : DB → Prop :=
  | reachable_empty : reachable empty_db
  | reachable_create_event db name event_date st loc fmt url descr :
      reachable db →
      reachable (run (create_event name event_date st loc fmt url descr) db).1
  | reachable_upload_results db event_name event_date file :
      reachable db →
      reachable (run (upload_results event_name event_date file) db).1.

(** ** Vocabulary of the statements *)

(** The results table as the next successful commit would leave it. *)
Definition all_results (s : Session) : list Result.t :=
  insert_results (new s) (results (store s)).

(** No waiting result would overflow its column. *)
Definition pending_fit (s : Session) : Prop :=
  Forall (λ n, fits_sqlite_int (NewResult.position n) = true) (new s).

(** A CSV row the loop body accepts: its position is an integer literal
    that fits the column. *)
Definition accepted (row : CsvRow.t) : Prop :=
  ∃ z, Py.int (CsvRow.position row) = Some z ∧ fits_sqlite_int z = true.

(** [r] is the result the loop body builds for [row] under the event
    [event_id], with its player among [ps]. *)
Definition ingested (event_id : Z) (ps : list Player.t) (row : CsvRow.t)
    (r : Result.t) : Prop :=
  ∃ p, p ∈ ps
       ∧ Player.name p = Py.strip (CsvRow.player row)
       ∧ Result.player_id r = Player.id p
       ∧ Result.event_id r = event_id
       ∧ Py.int (CsvRow.position row) = Some (Result.position r)
       ∧ Result.points r = points_for (Result.position r).

(** How many results wait, not yet committed, once the loop body has run
    over [rows] with [waiting] results waiting before: a row whose player
    name is not among the [known] names commits its player, and with it
    what waited. *)
Fixpoint waiting_after (known : list string) (waiting : nat)
    (rows : list CsvRow.t) : nat :=
  match rows with
  | [] => waiting
  | row :: rows' =>
      let name := Py.strip (CsvRow.player row) in
      if decide (name ∈ known) then waiting_after known (S waiting) rows'
      else waiting_after (name :: known) 1 rows'
  end.

(** The constraints the schema declares and the scoring rule, on a
    database file. *)
Record consistent (db : DB) : Prop := {
  player_ids_unique : NoDup (Player.id <$> players db);
  player_names_unique : NoDup (Player.name <$> players db);
  result_players_exist :
    ∀ r, r ∈ results db → ∃ p, p ∈ players db ∧ Player.id p = Result.player_id r;
  result_points_scored :
    ∀ r, r ∈ results db → Result.points r = points_for (Result.position r);
}.

(** The same for a session: the waiting results also refer to stored
    players and carry the points of their position. *)
Definition consistent_session (s : Session) : Prop :=
  consistent (store s)
  ∧ ∀ n, n ∈ new s →
         (∃ p, p ∈ players (store s) ∧ Player.id p = NewResult.player_id n)
         ∧ NewResult.points n = points_for (NewResult.position n).

(** The tables only grow at their end: no row is changed or deleted. *)
Definition extends (db db' : DB) : Prop :=
  players db `prefix_of` players db'
  ∧ events db `prefix_of` events db'
  ∧ results db `prefix_of` results db'.

(** ** Sample requests *)

Definition cup_date : date := Date 2024 5 1.

Definition cup_event : Event.t :=
  Event.mk 1 "Cup" cup_date None None None None None.

(** Five rows, the third with a position that is not a number. *)
Definition cup_rows : list CsvRow.t :=
  [CsvRow.mk "Alice" "1"; CsvRow.mk "Bob" "2"; CsvRow.mk "Carol" "x";
   CsvRow.mk "Dan" "4"; CsvRow.mk "Eve" "5"].

(** One row whose player column holds only spaces. *)
Definition blank_rows : list CsvRow.t := [CsvRow.mk "   " "1"].

Definition spring_rows : list CsvRow.t :=
  [CsvRow.mk "Alice" "1"; CsvRow.mk "Bob" "2"; CsvRow.mk "Carol" "11"].

(** The database after one upload for the Spring Open. *)
Definition spring_db : DB :=
  (run (upload_results "Spring Open" "2024-04-01" spring_rows) empty_db).1.

(** The database after the Cup was entered through the admin form. *)
Definition cup_created : DB :=
  (run (create_event "Cup" "2024-05-01" None None None None None) empty_db).1.


(** Two uploads that store Carol and Bob before Alice, with Bob and Alice
    tied at 25 points. *)
Definition tie_db : DB :=
  (run (upload_results "Summer Open" "2024-07-01" [CsvRow.mk "Alice" "1"])
     (run (upload_results "Spring Open" "2024-04-01"
             [CsvRow.mk "Carol" "2"; CsvRow.mk "Bob" "1"]) empty_db).1).1.

(** ** Vocabulary of the further statements *)

(** A date of the calendar, as [datetime.date] holds it. *)
Definition valid_date (d : date) : Prop :=
  1 ≤ year d ≤ 9999 ∧ 1 ≤ month d ≤ 12
  ∧ 1 ≤ day d ≤ days_in_month (year d) (month d).

(** Rowids as a table holds them: positive, and growing along the table. *)
Definition ascending (ids : list Z) : Prop := StronglySorted Z.lt (0 :: ids).

Definition players_ok (ps : list Player.t) : Prop :=
  ascending (Player.id <$> ps)
  ∧ ∀ p, p ∈ ps → Py.strip (Player.name p) = Player.name p.

(** The optional texts of an event: none of them is the empty text. *)
Definition optional_texts (e : Event.t) : list (option string) :=
  [Event.start_time e; Event.location e; Event.format e;
   Event.registration_url e; Event.description e].

Definition events_ok (es : list Event.t) : Prop :=
  ascending (Event.id <$> es)
  ∧ ∀ e, e ∈ es →
         valid_date (Event.event_date e)
         ∧ Forall (λ x, x ≠ Some EmptyString) (optional_texts e).

Definition results_ok (es : list Event.t) (rs : list Result.t) : Prop :=
  ascending (Result.id <$> rs)
  ∧ ∀ r, r ∈ rs →
         (∃ e, e ∈ es ∧ Event.id e = Result.event_id r)
         ∧ fits_sqlite_int (Result.position r) = true.

(** What the handlers keep true of the database beside [consistent]. *)
Definition well_formed (db : DB) : Prop :=
  players_ok (players db) ∧ events_ok (events db)
  ∧ results_ok (events db) (results db).

(** The same for a session: the waiting results belong to stored events. *)
Definition well_formed_session (s : Session) : Prop :=
  well_formed (store s)
  ∧ ∀ n, n ∈ new s →
         ∃ e, e ∈ events (store s) ∧ Event.id e = NewResult.event_id n.

(** The number of occurrences of a character in a text. *)
Fixpoint count_char (c : ascii) (s : string) : nat :=
  match s with
  | EmptyString => 0
  | String c' s' => (if bool_decide (c' = c) then 1 else 0) + count_char c s'
  end.

(** The points a standings list hands out, all rows together. *)
Definition total_points (standings : list (string * Z)) : Z :=
  foldr (λ row acc, row.2 + acc) 0 standings.

(** The points a player has in the standings. *)
Definition total_of (db : DB) (p : Player.t) : Z :=
  sum_points (filter (λ r, Result.player_id r = Player.id p) (results db)).

(** The points the rows of a batch give to the player called [name]. *)
Fixpoint batch_points (name : string) (file : list CsvRow.t) : Z :=
  match file with
  | [] => 0
  | row :: file' =>
      (if decide (Py.strip (CsvRow.player row) = name)
       then points_for (default 0 (Py.int (CsvRow.position row)))
       else 0)
      + batch_points name file'
  end.

(** * Properties *)

(** ** The Python layer on sample values *)

Example int_plain : Py.int "12" = Some 12.
Proof. reflexivity. Qed.

Example int_spaces_sign_zeros : Py.int "  -007 " = Some (-7).
Proof. reflexivity. Qed.

Example int_underscore : Py.int "1_000" = Some 1000.
Proof. reflexivity. Qed.

Example int_rejects :
  Py.int "" = None ∧ Py.int "x" = None ∧ Py.int "1.5" = None
  ∧ Py.int "1__0" = None ∧ Py.int "_1" = None ∧ Py.int "1_" = None
  ∧ Py.int "- 1" = None ∧ Py.int "+" = None.
Proof. repeat split. Qed.

Example strip_inner_space : Py.strip "  Al ice  " = "Al ice".
Proof. reflexivity. Qed.

Example split_date : Py.split "-" "2024-05-01" = ["2024"; "05"; "01"].
Proof. reflexivity. Qed.

Example parse_event_date_ok : parse_event_date "2024-02-29" = Returned (Date 2024 2 29).
Proof. reflexivity. Qed.

Example parse_event_date_rejects :
  parse_event_date "2023-02-29" = Raised ValueError
  ∧ parse_event_date "2024-13-01" = Raised ValueError
  ∧ parse_event_date "2024-05" = Raised ValueError
  ∧ parse_event_date "2024-05-01-" = Raised ValueError
  ∧ parse_event_date "01/05/2024" = Raised ValueError
  ∧ parse_event_date "99999999999-1-1" = Raised OverflowError.
Proof. repeat split. Qed.

Example upload_spring :
  spring_db
  = {| players := [Player.mk 1 "Alice"; Player.mk 2 "Bob"; Player.mk 3 "Carol"];
       events := [Event.mk 1 "Spring Open" (Date 2024 4 1)
                    None None None None None];
       results := [Result.mk 1 1 1 1 25; Result.mk 2 1 2 2 18;
                   Result.mk 3 1 3 11 0] |}.
Proof. reflexivity. Qed.

Example create_event_redirect :
  (run (create_event "Cup" "2024-05-01" (Some "7:00 PM") (Some "") None None None)
     spring_db).2
  = Returned (RedirectResponse "/events/2" 303).
Proof. reflexivity. Qed.

(** ** The scoring table *)

Section scoring.

Lemma points_for_outside (p : Z) : p < 1 ∨ 10 < p → points_for p = 0.
Proof.
  intros Hp. unfold points_for, POINTS_TABLE. cbn [list_to_map foldr uncurry].
  rewrite !lookup_insert_ne by (simpl; lia).
  by rewrite lookup_empty.
Qed.

Lemma points_for_values (p : Z) :
  points_for p ∈ [0; 1; 2; 4; 6; 8; 10; 12; 15; 18; 25].
Proof.
  destruct (decide (p < 1 ∨ 10 < p)) as [Hp|Hp].
  - rewrite points_for_outside by done. apply list_elem_of_here.
  - assert (p = 1 ∨ p = 2 ∨ p = 3 ∨ p = 4 ∨ p = 5 ∨ p = 6 ∨ p = 7
            ∨ p = 8 ∨ p = 9 ∨ p = 10) as Hcases by lia.
    apply list_elem_of_In.
    repeat (destruct Hcases as [->|Hcases]; [vm_compute; tauto|]).
    subst p. vm_compute. tauto.
Qed.

Lemma points_for_nonneg (p : Z) : 0 ≤ points_for p.
Proof.
  pose proof (points_for_values p) as H.
  repeat (apply elem_of_cons in H as [->|H]; [lia|]).
  by apply elem_of_nil in H.
Qed.

End scoring.

(** C4. [points_for] is a total function of the position: on 1..10 it gives
    the entries 25, 18, 15, 12, 10, 8, 6, 4, 2, 1 of the table, and on every
    other integer (zero, negative, above ten) it gives 0. *)
Theorem points_for_total :
  points_for 1 = 25 ∧ points_for 2 = 18 ∧ points_for 3 = 15
  ∧ points_for 4 = 12 ∧ points_for 5 = 10 ∧ points_for 6 = 8
  ∧ points_for 7 = 6 ∧ points_for 8 = 4 ∧ points_for 9 = 2
  ∧ points_for 10 = 1
  ∧ ∀ p : Z, p < 1 ∨ 10 < p → points_for p = 0.
Proof.
  repeat (split; [reflexivity|]). apply points_for_outside.
Qed.

Lemma points_for_total_witness :
  points_for 0 = 0 ∧ points_for (-4) = 0 ∧ points_for 11 = 0.
Proof.
  destruct points_for_total as (_ & _ & _ & _ & _ & _ & _ & _ & _ & _ & Hout).
  repeat split; apply Hout; lia.
Defined.

(** ** Requests that only read *)

Section read_only.

Lemma run_query {A} (q : DB → A) (db : DB) :
  run (query q) db = (db, Returned (q db)).
Proof. reflexivity. Qed.

Lemma run_read_standings (db : DB) :
  run read_standings db
  = (db, Returned (merge_sort standings_le (standings_groups db))).
Proof. reflexivity. Qed.

Lemma run_read_events (today : date) (db : DB) :
  run (read_events today) db
  = (db, Returned
       (merge_sort event_date_asc
          (filter (λ e, date_le today (Event.event_date e)) (events db)),
        merge_sort event_date_desc
          (filter (λ e, date_lt (Event.event_date e) today) (events db)))).
Proof. reflexivity. Qed.

End read_only.

(** ** The orders of the ORDER BY clauses *)

Section orders.

Lemma date_le_refl (a : date) : date_le a a.
Proof. unfold date_le. lia. Qed.

Lemma date_le_trans (a b c : date) : date_le a b → date_le b c → date_le a c.
Proof. unfold date_le. lia. Qed.

Lemma date_le_total (a b : date) : date_le a b ∨ date_le b a.
Proof. unfold date_le. lia. Qed.

Lemma date_lt_not_le (a b : date) : date_lt a b ↔ ¬ date_le b a.
Proof. unfold date_lt, date_le. lia. Qed.

Lemma filter_before_complement (today : date) (l : list Event.t) :
  filter (λ e, date_lt (Event.event_date e) today) l
  = filter (λ e, ¬ date_le today (Event.event_date e)) l.
Proof.
  induction l as [|e l IH]; [done|].
  rewrite !filter_cons, IH.
  destruct (decide (date_lt (Event.event_date e) today)) as [Hlt|Hlt];
    destruct (decide (¬ date_le today (Event.event_date e))) as [Hle|Hle];
    try done; exfalso.
  - by apply date_lt_not_le in Hlt.
  - by apply Hlt, date_lt_not_le.
Qed.

Global Instance event_date_asc_trans : Transitive event_date_asc.
Proof. intros a b c. apply date_le_trans. Qed.

Global Instance event_date_asc_total : Total event_date_asc.
Proof. intros a b. apply date_le_total. Qed.

Global Instance event_date_desc_trans : Transitive event_date_desc.
Proof. intros a b c Hab Hbc. exact (date_le_trans _ _ _ Hbc Hab). Qed.

Global Instance event_date_desc_total : Total event_date_desc.
Proof. intros a b. apply date_le_total. Qed.

Global Instance position_le_trans : Transitive position_le.
Proof. intros a b c. unfold position_le. lia. Qed.

Global Instance position_le_total : Total position_le.
Proof. intros a b. unfold position_le. lia. Qed.

Global Instance standings_le_trans : Transitive standings_le.
Proof.
  intros [n1 t1] [n2 t2] [n3 t3]. unfold standings_le. simpl.
  intros [H12|[-> H12]] [H23|[-> H23]]; try (left; lia).
  right. split; [done|]. by etrans.
Qed.

Global Instance standings_le_total : Total standings_le.
Proof.
  intros [n1 t1] [n2 t2]. unfold standings_le. simpl.
  destruct (Z.lt_trichotomy t1 t2) as [H|[->|H]]; [right; by left| |left; by left].
  destruct (total String.le n1 n2); [left|right]; by right.
Qed.

Global Instance standings_le_antisymm : AntiSymm (=) standings_le.
Proof.
  intros [n1 t1] [n2 t2]. unfold standings_le. simpl.
  intros [H12|[-> H12]] [H21|[? H21]]; try lia.
  f_equal. by apply (anti_symm String.le).
Qed.

End orders.

(** C8. [read_events] splits the events by their date against today's: an
    event dated today is in the upcoming list and not in the past one, the
    upcoming list is ordered by date ascending and the past list by date
    descending, and every event is in exactly one of the two lists. *)
Theorem read_events_partition (today : date) (db : DB) :
  ∃ upcoming past : list Event.t,
    run (read_events today) db = (db, Returned (upcoming, past))
    ∧ upcoming ++ past ≡ₚ events db
    ∧ (∀ e, e ∈ upcoming ↔ e ∈ events db ∧ date_le today (Event.event_date e))
    ∧ (∀ e, e ∈ past ↔ e ∈ events db ∧ date_lt (Event.event_date e) today)
    ∧ (∀ e, ¬ (e ∈ upcoming ∧ e ∈ past))
    ∧ (∀ e, e ∈ events db → Event.event_date e = today →
            e ∈ upcoming ∧ e ∉ past)
    ∧ StronglySorted event_date_asc upcoming
    ∧ StronglySorted event_date_desc past.
Proof.
  eexists _, _. split; [apply run_read_events|].
  assert (∀ e, e ∈ merge_sort event_date_asc
                 (filter (λ e, date_le today (Event.event_date e)) (events db))
               ↔ e ∈ events db ∧ date_le today (Event.event_date e)) as Hup.
  { intros e. rewrite merge_sort_Permutation, list_elem_of_filter. tauto. }
  assert (∀ e, e ∈ merge_sort event_date_desc
                 (filter (λ e, date_lt (Event.event_date e) today) (events db))
               ↔ e ∈ events db ∧ date_lt (Event.event_date e) today) as Hpast.
  { intros e. rewrite merge_sort_Permutation, list_elem_of_filter. tauto. }
  split_and!.
  - rewrite !merge_sort_Permutation.
    rewrite <- (filter_app_complement
                  (λ e, date_le today (Event.event_date e)) (events db)) at 3.
    by rewrite filter_before_complement.
  - exact Hup.
  - exact Hpast.
  - intros e [[_ H1]%Hup [_ H2]%Hpast]. by apply date_lt_not_le in H2.
  - intros e He Hd. split.
    + apply Hup. split; [done|]. rewrite Hd. apply date_le_refl.
    + intros [_ H]%Hpast. apply date_lt_not_le in H. apply H.
      rewrite Hd. apply date_le_refl.
  - apply StronglySorted_merge_sort; apply _.
  - apply StronglySorted_merge_sort; apply _.
Qed.

(** ** The standings *)

Section standings.

Global Instance sum_points_Permutation : Proper ((≡ₚ) ==> (=)) sum_points.
Proof.
  intros l1 l2 Hperm. unfold sum_points.
  induction Hperm as [|r l1 l2 _ IH|r1 r2 l|l1 l2 l3 _ IH1 _ IH2]; simpl; lia.
Qed.

Lemma standings_groups_bind (db : DB) :
  standings_groups db = players db ≫= group_of (results db).
Proof. reflexivity. Qed.

Lemma group_of_Permutation (rs rs' : list Result.t) (p : Player.t) :
  rs ≡ₚ rs' → group_of rs p = group_of rs' p.
Proof.
  intros Hperm. unfold group_of.
  pose proof (filter_Permutation
                (λ r, Result.player_id r = Player.id p) _ _ Hperm) as Hf.
  destruct (filter _ rs) as [|r l] eqn:E1, (filter _ rs') as [|r' l'] eqn:E2.
  - done.
  - by apply Permutation_nil_l in Hf.
  - by apply Permutation_nil_r in Hf.
  - by rewrite Hf.
Qed.

Lemma group_of_some (rs : list Result.t) (p : Player.t) :
  Exists (λ r, Result.player_id r = Player.id p) rs →
  group_of rs p
  = [(Player.name p,
      sum_points (filter (λ r, Result.player_id r = Player.id p) rs))].
Proof.
  intros (r & Hr & Hid)%Exists_exists. unfold group_of.
  destruct (filter _ rs) as [|r' l] eqn:E; [|done].
  assert (r ∈ filter (λ r, Result.player_id r = Player.id p) rs) as Hin
    by by apply list_elem_of_filter.
  rewrite E in Hin. by apply elem_of_nil in Hin.
Qed.

Lemma group_of_none (rs : list Result.t) (p : Player.t) :
  ¬ Exists (λ r, Result.player_id r = Player.id p) rs → group_of rs p = [].
Proof.
  intros Hno. unfold group_of.
  destruct (filter _ rs) as [|r l] eqn:E; [done|]. exfalso. apply Hno.
  assert (r ∈ filter (λ r, Result.player_id r = Player.id p) rs) as Hin
    by (rewrite E; apply list_elem_of_here).
  apply list_elem_of_filter in Hin as [Hid Hin].
  apply Exists_exists. eauto.
Qed.

Lemma standings_groups_elem (db : DB) (name : string) (total : Z) :
  (name, total) ∈ standings_groups db
  ↔ ∃ p, p ∈ players db ∧ Player.name p = name
         ∧ (∃ r, r ∈ results db ∧ Result.player_id r = Player.id p)
         ∧ total = sum_points
                     (filter (λ r, Result.player_id r = Player.id p) (results db)).
Proof.
  rewrite standings_groups_bind, list_elem_of_bind. split.
  - intros (p & Hg & Hp). exists p.
    destruct (decide (Exists (λ r, Result.player_id r = Player.id p) (results db)))
      as [Hex|Hex].
    + rewrite group_of_some in Hg by done.
      apply list_elem_of_singleton in Hg. injection Hg as -> ->.
      apply Exists_exists in Hex as (r & Hr & Hid).
      split_and!; [done|done|by exists r|done].
    + rewrite group_of_none in Hg by done. by apply elem_of_nil in Hg.
  - intros (p & Hp & <- & (r & Hr & Hid) & ->). exists p. split; [|done].
    rewrite group_of_some; [apply list_elem_of_here|].
    apply Exists_exists. eauto.
Qed.

Lemma standings_groups_names (db : DB) :
  (standings_groups db).*1
  = Player.name <$>
      filter (λ p, Exists (λ r, Result.player_id r = Player.id p) (results db))
        (players db).
Proof.
  rewrite standings_groups_bind.
  induction (players db) as [|p ps IH]; [done|].
  rewrite bind_cons, fmap_app, IH, filter_cons.
  destruct (decide (Exists _ (results db))) as [Hex|Hex].
  - by rewrite group_of_some.
  - by rewrite group_of_none.
Qed.

Lemma standings_groups_Permutation (db db' : DB) :
  players db' ≡ₚ players db → results db' ≡ₚ results db →
  standings_groups db' ≡ₚ standings_groups db.
Proof.
  intros Hp Hr. rewrite !standings_groups_bind, Hp. clear Hp.
  induction (players db) as [|p ps IH]; [done|].
  rewrite !bind_cons, IH, (group_of_Permutation _ _ p Hr). done.
Qed.

End standings.

Example read_standings_tie :
  players tie_db = [Player.mk 1 "Carol"; Player.mk 2 "Bob"; Player.mk 3 "Alice"]
  ∧ run read_standings tie_db
    = (tie_db, Returned [("Alice", 25); ("Bob", 25); ("Carol", 18)]).
Proof. split; reflexivity. Qed.

Example read_standings_zero_total :
  run read_standings spring_db
  = (spring_db, Returned [("Alice", 25); ("Bob", 18); ("Carol", 0)]).
Proof. reflexivity. Qed.

(** C3. [read_standings] lists exactly the players that have at least one
    result (also those whose total is zero, and no player without a result),
    each once and with the sum of the points of all of that player's
    results, ordered by total descending and then by name ascending; the
    answer does not depend on the order in which the rows are stored. *)
Theorem read_standings_ranked (db : DB) :
  ∃ standings : list (string * Z),
    run read_standings db = (db, Returned standings)
    ∧ (∀ name total,
         (name, total) ∈ standings
         ↔ ∃ p, p ∈ players db ∧ Player.name p = name
                ∧ (∃ r, r ∈ results db ∧ Result.player_id r = Player.id p)
                ∧ total = sum_points
                            (filter (λ r, Result.player_id r = Player.id p)
                               (results db)))
    ∧ standings.*1
      ≡ₚ Player.name <$>
           filter (λ p, Exists (λ r, Result.player_id r = Player.id p) (results db))
             (players db)
    ∧ StronglySorted standings_le standings
    ∧ (∀ db', players db' ≡ₚ players db → results db' ≡ₚ results db →
              run read_standings db' = (db', Returned standings)).
Proof.
  eexists. split; [apply run_read_standings|]. split_and!.
  - intros name total. rewrite merge_sort_Permutation.
    apply standings_groups_elem.
  - rewrite merge_sort_Permutation. by rewrite standings_groups_names.
  - apply StronglySorted_merge_sort; apply _.
  - intros db' Hp Hr. rewrite run_read_standings. do 2 f_equal.
    apply (StronglySorted_unique standings_le).
    + apply StronglySorted_merge_sort; apply _.
    + apply StronglySorted_merge_sort; apply _.
    + rewrite !merge_sort_Permutation. by apply standings_groups_Permutation.
Qed.

(** ** The session *)

Section session.

Lemma next_id_above (ids : list Z) (x : Z) : x ∈ ids → x < next_id ids.
Proof.
  unfold next_id. induction ids as [|y ids IH]; intros Hx.
  - by apply elem_of_nil in Hx.
  - apply elem_of_cons in Hx as [->|Hx]; simpl; [lia|].
    specialize (IH Hx). lia.
Qed.

Lemma next_id_fresh (ids : list Z) : next_id ids ∉ ids.
Proof. intros H%next_id_above. lia. Qed.

Lemma insert_results_app (pending1 pending2 : list NewResult.t)
    (rs : list Result.t) :
  insert_results (pending1 ++ pending2) rs
  = insert_results pending2 (insert_results pending1 rs).
Proof. revert rs. induction pending1 as [|n l IH]; intros rs; simpl; auto. Qed.

Lemma insert_results_snoc (pending : list NewResult.t) (n : NewResult.t)
    (rs : list Result.t) :
  insert_results (pending ++ [n]) rs
  = insert_results pending rs
    ++ [inserted (next_id (Result.id <$> insert_results pending rs)) n].
Proof. by rewrite insert_results_app. Qed.

Lemma insert_results_prefix (pending : list NewResult.t) (rs : list Result.t) :
  rs `prefix_of` insert_results pending rs.
Proof.
  revert rs. induction pending as [|n l IH]; intros rs; simpl; [done|].
  etrans; [|apply IH]. by apply prefix_app_r.
Qed.

Lemma insert_results_elem (pending : list NewResult.t) (rs : list Result.t)
    (r : Result.t) :
  r ∈ insert_results pending rs →
  r ∈ rs ∨ ∃ n id, n ∈ pending ∧ r = inserted id n.
Proof.
  revert rs. induction pending as [|n l IH]; intros rs; simpl; [by left|].
  intros [Hr|(n' & id & Hn' & ->)]%IH.
  - apply elem_of_app in Hr as [Hr|Hr]; [by left|].
    apply list_elem_of_singleton in Hr as ->. right.
    eexists _, _. split; [apply list_elem_of_here|done].
  - right. eexists _, _. split; [by apply list_elem_of_further|done].
Qed.

Lemma insert_results_length (pending : list NewResult.t) (rs : list Result.t) :
  length (insert_results pending rs) = (length rs + length pending)%nat.
Proof.
  revert rs. induction pending as [|n l IH]; intros rs; simpl; [lia|].
  rewrite IH, length_app. simpl. lia.
Qed.

Lemma flush_fit (s : Session) :
  pending_fit s → flush s = Returned (all_results s).
Proof.
  intros Hfit. unfold flush.
  replace (forallb _ (new s)) with true; [done|].
  symmetry. apply forallb_forall. intros n Hn%list_elem_of_In.
  by apply (proj1 (Forall_forall _ _) Hfit).
Qed.

Lemma flush_cases (s : Session) :
  flush s = Returned (all_results s) ∨ flush s = Raised OverflowError.
Proof. unfold flush. destruct (forallb _ _); auto. Qed.

Lemma bind_unfold {A B} (m : M A) (f : A → M B) (s : Session) :
  (m ≫= f) s
  = match m s with
    | (s', Returned a) => f a s'
    | (s', Raised e) => (s', Raised e)
    end.
Proof. reflexivity. Qed.

Lemma for_each_cons {A} (x : A) (l : list A) (body : A → M unit)
    (s : Session) :
  for_each (x :: l) body s
  = match body x s with
    | (s', Returned _) => for_each l body s'
    | (s', Raised e) => (s', Raised e)
    end.
Proof. reflexivity. Qed.

Lemma find_player_None (name : string) (ps : list Player.t) :
  head (filter (λ p, Player.name p = name) ps) = None →
  name ∉ Player.name <$> ps.
Proof.
  intros Hnone (p & -> & Hp)%list_elem_of_fmap.
  assert (p ∈ filter (λ q, Player.name q = Player.name p) ps) as Hin
    by by apply list_elem_of_filter.
  destruct (filter _ ps); [by apply elem_of_nil in Hin|done].
Qed.

Lemma find_player_Some (name : string) (ps : list Player.t) (p : Player.t) :
  head (filter (λ p, Player.name p = name) ps) = Some p →
  p ∈ ps ∧ Player.name p = name.
Proof.
  intros Hhead.
  assert (p ∈ filter (λ q, Player.name q = name) ps) as Hin.
  { destruct (filter _ ps); [done|]. injection Hhead as ->.
    apply list_elem_of_here. }
  apply list_elem_of_filter in Hin. tauto.
Qed.

End session.

(** ** The constraints hold in every database the program produces *)

Section consistency.

Lemma consistent_empty : consistent empty_db.
Proof.
  split; simpl; try apply NoDup_nil_2; intros r Hr; by apply elem_of_nil in Hr.
Qed.

Lemma consistent_session_store (s : Session) :
  consistent_session s → consistent (store s).
Proof. by intros [H _]. Qed.

Lemma consistent_open (db : DB) :
  consistent db → consistent_session {| store := db; new := [] |}.
Proof. intros H. split; [done|]. intros n Hn. by apply elem_of_nil in Hn. Qed.

(** The flush of consistent waiting results leaves a consistent table. *)
Lemma consistent_flush (s : Session) (ps : list Player.t) (es : list Event.t) :
  consistent_session s →
  players (store s) `prefix_of` ps →
  NoDup (Player.id <$> ps) → NoDup (Player.name <$> ps) →
  consistent_session
    {| store := {| players := ps; events := es; results := all_results s |};
       new := [] |}.
Proof.
  intros [Hc Hnew] [more ->] Hids Hnames. split; [split; simpl; try done|].
  - intros r [Hr|(n & id & Hn & ->)]%insert_results_elem.
    + destruct (result_players_exist _ Hc r Hr) as (p & Hp & Hid).
      exists p. split; [|done]. apply elem_of_app. by left.
    + destruct (Hnew n Hn) as [(p & Hp & Hid) _].
      exists p. split; [|done]. apply elem_of_app. by left.
  - intros r [Hr|(n & id & Hn & ->)]%insert_results_elem.
    + by apply (result_points_scored _ Hc).
    + by destruct (Hnew n Hn) as [_ Hpts].
  - simpl. intros n Hn. by apply elem_of_nil in Hn.
Qed.

Lemma consistent_commit (s : Session) :
  consistent_session s → consistent_session (commit s).1.
Proof.
  intros Hs. unfold commit.
  destruct (flush_cases s) as [-> | ->]; simpl; [|done].
  destruct Hs as [Hc Hnew].
  apply consistent_flush; [by split|done|apply Hc|apply Hc].
Qed.

Lemma consistent_add_commit_refresh_event (s : Session) name d st loc fmt url descr :
  consistent_session s →
  consistent_session
    (add_commit_refresh_event name d st loc fmt url descr s).1.
Proof.
  intros Hs. unfold add_commit_refresh_event.
  destruct (flush_cases s) as [-> | ->]; simpl; [|done].
  destruct Hs as [Hc Hnew].
  apply consistent_flush; [by split|done|apply Hc|apply Hc].
Qed.

Lemma consistent_add_commit_refresh_player (s : Session) (name : string) :
  consistent_session s →
  name ∉ Player.name <$> players (store s) →
  consistent_session (add_commit_refresh_player name s).1.
Proof.
  intros Hs Hname. unfold add_commit_refresh_player.
  destruct (flush_cases s) as [-> | ->]; simpl; [|done].
  destruct Hs as [Hc Hnew].
  apply consistent_flush; [by split|by apply prefix_app_r| |].
  - rewrite fmap_app. apply NoDup_app. split_and!.
    + apply Hc.
    + intros x Hx Hx'. apply list_elem_of_singleton in Hx'. simpl in Hx'.
      subst x. by apply next_id_fresh in Hx.
    + apply NoDup_singleton.
  - rewrite fmap_app. apply NoDup_app. split_and!.
    + apply Hc.
    + intros x Hx Hx'. apply list_elem_of_singleton in Hx'. simpl in Hx'.
      by subst x.
    + apply NoDup_singleton.
Qed.

Lemma consistent_bind {A B} (m : M A) (f : A → M B) (s : Session) :
  consistent_session (m s).1 →
  (∀ a s', m s = (s', Returned a) → consistent_session s' →
           consistent_session (f a s').1) →
  consistent_session ((m ≫= f) s).1.
Proof.
  intros Hm Hf. rewrite bind_unfold.
  destruct (m s) as [s' [a|e]] eqn:E; [|done]. by apply Hf.
Qed.

Lemma consistent_resolve_player (s : Session) (name : string) :
  consistent_session s → consistent_session (resolve_player name s).1.
Proof.
  intros Hs. unfold resolve_player, find_player. rewrite bind_unfold.
  cbn [query].
  destruct (head (filter _ (players (store s)))) as [p|] eqn:Hfind; [done|].
  apply consistent_add_commit_refresh_player; [done|].
  by apply find_player_None.
Qed.

Lemma resolve_player_stored (s s' : Session) (name : string) (p : Player.t) :
  resolve_player name s = (s', Returned p) →
  p ∈ players (store s') ∧ Player.name p = name.
Proof.
  unfold resolve_player, find_player. rewrite bind_unfold. cbn [query].
  destruct (head (filter _ (players (store s)))) as [q|] eqn:Hfind.
  - intros [= <- <-]. by apply find_player_Some.
  - unfold add_commit_refresh_player.
    destruct (flush s) as [rs|e]; [|done]. intros [= <- <-]. simpl.
    split; [|done]. apply elem_of_app. right. apply list_elem_of_here.
Qed.

Lemma consistent_add (s : Session) (n : NewResult.t) :
  consistent_session s →
  (∃ p, p ∈ players (store s) ∧ Player.id p = NewResult.player_id n) →
  NewResult.points n = points_for (NewResult.position n) →
  consistent_session (add n s).1.
Proof.
  intros [Hc Hnew] Hp Hpts. split; [done|]. simpl.
  intros n' [Hn'|Hn']%elem_of_app; [by apply Hnew|].
  by apply list_elem_of_singleton in Hn' as ->.
Qed.

Lemma consistent_upload_row (s : Session) (event : Event.t) (row : CsvRow.t) :
  consistent_session s → consistent_session (upload_row event row s).1.
Proof.
  intros Hs. unfold upload_row. apply consistent_bind.
  { unfold int_or_raise. by destruct (Py.int _). }
  intros z s1 Hint Hs1. apply consistent_bind.
  { by apply consistent_resolve_player. }
  intros p s2 Hres Hs2. apply consistent_add; [done| |done].
  exists p. split; [|done]. by apply (resolve_player_stored _ _ _ _ Hres).
Qed.

Lemma consistent_for_each (file : list CsvRow.t) (event : Event.t) (s : Session) :
  consistent_session s →
  consistent_session (for_each file (upload_row event) s).1.
Proof.
  revert s. induction file as [|row file IH]; intros s Hs; [done|].
  cbn [for_each]. apply consistent_bind.
  - by apply consistent_upload_row.
  - intros [] s' _ Hs'. by apply IH.
Qed.

Lemma consistent_upload_results_session (s : Session) event_name event_date file :
  consistent_session s →
  consistent_session (upload_results event_name event_date file s).1.
Proof.
  intros Hs. unfold upload_results. apply consistent_bind.
  { unfold lift. by destruct (parse_event_date _). }
  intros d s1 _ Hs1. apply consistent_bind; [done|].
  intros [ev|] s2 [= <- _] _; [done|]. apply consistent_bind.
  { by apply consistent_add_commit_refresh_event. }
  intros ev s3 _ Hs3. apply consistent_bind.
  { by apply consistent_for_each. }
  intros [] s4 _ Hs4. apply consistent_bind.
  { by apply consistent_commit. }
  by intros [] s5 _ Hs5.
Qed.

Lemma consistent_create_event_session (s : Session) name event_date
    st loc fmt url descr :
  consistent_session s →
  consistent_session (create_event name event_date st loc fmt url descr s).1.
Proof.
  intros Hs. unfold create_event. apply consistent_bind.
  { unfold lift. by destruct (parse_event_date _). }
  intros d s1 _ Hs1. apply consistent_bind.
  { by apply consistent_add_commit_refresh_event. }
  by intros ev s2 _ Hs2.
Qed.

Lemma consistent_run {A} (handler : M A) (db : DB) :
  (∀ s, consistent_session s → consistent_session (handler s).1) →
  consistent db → consistent (run handler db).1.
Proof.
  intros Hh Hdb. unfold run.
  specialize (Hh _ (consistent_open db Hdb)).
  destruct (handler _) as [s o]. by apply consistent_session_store.
Qed.

Lemma reachable_consistent (db : DB) : reachable db → consistent db.
Proof.
  induction 1 as [|db ? ? ? ? ? ? ? _ IH|db ? ? ? _ IH].
  - apply consistent_empty.
  - apply consistent_run; [|done].
    intros s. apply consistent_create_event_session.
  - apply consistent_run; [|done].
    intros s. apply consistent_upload_results_session.
Qed.

End consistency.

(** ** The tables are append-only *)

Section append_only.

Global Instance extends_preorder : PreOrder extends.
Proof.
  split.
  - intros db. by repeat split.
  - intros a b c (? & ? & ?) (? & ? & ?). repeat split; by etrans.
Qed.

Lemma extends_bind {A B} (m : M A) (f : A → M B) (s : Session) :
  extends (store s) (store (m s).1) →
  (∀ a s', m s = (s', Returned a) → extends (store s') (store (f a s').1)) →
  extends (store s) (store ((m ≫= f) s).1).
Proof.
  intros Hm Hf. rewrite bind_unfold.
  destruct (m s) as [s' [a|e]] eqn:E; [|done].
  etrans; [exact Hm|]. by apply Hf.
Qed.

Lemma extends_flush (s : Session) (rs : list Result.t) :
  flush s = Returned rs → results (store s) `prefix_of` rs.
Proof.
  destruct (flush_cases s) as [-> | ->]; [|done].
  intros [= <-]. apply insert_results_prefix.
Qed.

Lemma extends_commit (s : Session) : extends (store s) (store (commit s).1).
Proof.
  unfold commit. destruct (flush s) as [rs|e] eqn:E; [|done].
  repeat split; simpl; [done|done|by apply extends_flush].
Qed.

Lemma extends_add_commit_refresh_event (s : Session) name d st loc fmt url descr :
  extends (store s)
    (store (add_commit_refresh_event name d st loc fmt url descr s).1).
Proof.
  unfold add_commit_refresh_event. destruct (flush s) as [rs|e] eqn:E; [|done].
  repeat split; simpl; [done|by apply prefix_app_r|by apply extends_flush].
Qed.

Lemma extends_resolve_player (s : Session) (name : string) :
  extends (store s) (store (resolve_player name s).1).
Proof.
  unfold resolve_player, find_player. rewrite bind_unfold. cbn [query].
  destruct (head _) as [p|]; [done|].
  unfold add_commit_refresh_player. destruct (flush s) as [rs|e] eqn:E; [|done].
  repeat split; simpl; [by apply prefix_app_r|done|by apply extends_flush].
Qed.

Lemma extends_upload_row (s : Session) (event : Event.t) (row : CsvRow.t) :
  extends (store s) (store (upload_row event row s).1).
Proof.
  unfold upload_row. apply extends_bind.
  { unfold int_or_raise. by destruct (Py.int _). }
  intros z s1 _. apply extends_bind; [apply extends_resolve_player|done].
Qed.

Lemma extends_for_each (file : list CsvRow.t) (event : Event.t) (s : Session) :
  extends (store s) (store (for_each file (upload_row event) s).1).
Proof.
  revert s. induction file as [|row file IH]; intros s; [done|].
  cbn [for_each]. apply extends_bind; [apply extends_upload_row|].
  intros [] s' _. apply IH.
Qed.

Lemma extends_upload_results_session (s : Session) event_name event_date file :
  extends (store s) (store (upload_results event_name event_date file s).1).
Proof.
  unfold upload_results. apply extends_bind.
  { unfold lift. by destruct (parse_event_date _). }
  intros d s1 _. apply extends_bind; [done|].
  intros [ev|] s2 _; [done|]. apply extends_bind.
  { apply extends_add_commit_refresh_event. }
  intros ev s3 _. apply extends_bind; [apply extends_for_each|].
  intros [] s4 _. apply extends_bind; [apply extends_commit|done].
Qed.

Lemma extends_upload_results (db : DB) event_name event_date file :
  extends db (run (upload_results event_name event_date file) db).1.
Proof.
  unfold run.
  pose proof (extends_upload_results_session {| store := db; new := [] |}
                event_name event_date file) as H.
  by destruct (upload_results _ _ _ _) as [s o].
Qed.

Lemma extends_create_event (db : DB) name event_date st loc fmt url descr :
  extends db (run (create_event name event_date st loc fmt url descr) db).1
  ∧ results (run (create_event name event_date st loc fmt url descr) db).1
    = results db.
Proof.
  unfold run, create_event. rewrite bind_unfold. unfold lift.
  destruct (parse_event_date event_date) as [d|e]; [|done].
  rewrite bind_unfold. unfold add_commit_refresh_event, flush. simpl.
  repeat split; simpl; try done. by apply prefix_app_r.
Qed.

End append_only.

(** C10. In every database the program produces, each stored result has
    the points of its position, [points = points_for position]; so its
    points are one of 0, 1, 2, 4, 6, 8, 10, 12, 15, 18, 25 and never
    negative.  The handlers only append results: an upload keeps the rows
    already stored, and creating an event leaves the results alone. *)
Theorem results_points_invariant (db : DB) (r : Result.t) :
  reachable db → r ∈ results db →
  Result.points r = points_for (Result.position r)
  ∧ Result.points r ∈ [0; 1; 2; 4; 6; 8; 10; 12; 15; 18; 25]
  ∧ 0 ≤ Result.points r
  ∧ (∀ event_name event_date file,
       results db
         `prefix_of` results (run (upload_results event_name event_date file) db).1)
  ∧ (∀ name event_date st loc fmt url descr,
       results (run (create_event name event_date st loc fmt url descr) db).1
       = results db).
Proof.
  intros Hdb%reachable_consistent Hr.
  pose proof (result_points_scored db Hdb r Hr) as ->.
  split_and!.
  - done.
  - apply points_for_values.
  - apply points_for_nonneg.
  - intros. apply extends_upload_results.
  - intros. apply extends_create_event.
Qed.

(** ** Ingestion *)

Section ingestion.

Lemma ingested_mono (event_id : Z) (ps ps' : list Player.t) (row : CsvRow.t)
    (r : Result.t) :
  ps `prefix_of` ps' → ingested event_id ps row r → ingested event_id ps' row r.
Proof.
  intros Hps (p & Hp & H). exists p. split; [|done].
  by apply (elem_of_prefix ps).
Qed.

Lemma for_each_app {A} (l1 l2 : list A) (body : A → M unit) (s : Session) :
  for_each (l1 ++ l2) body s
  = match for_each l1 body s with
    | (s', Returned _) => for_each l2 body s'
    | (s', Raised e) => (s', Raised e)
    end.
Proof.
  revert s. induction l1 as [|x l1 IH]; intros s; [done|].
  simpl. rewrite !bind_unfold.
  destruct (body x s) as [s' [[]|e]]; [apply IH|done].
Qed.

Lemma waiting_after_known (known known' : list string) (waiting : nat)
    (rows : list CsvRow.t) :
  (∀ n, n ∈ known ↔ n ∈ known') →
  waiting_after known waiting rows = waiting_after known' waiting rows.
Proof.
  revert known known' waiting.
  induction rows as [|row rows IH]; intros known known' waiting Hsame; [done|].
  cbn [waiting_after].
  destruct (decide (_ ∈ known)) as [Hin|Hin];
    destruct (decide (_ ∈ known')) as [Hin'|Hin'];
    try (exfalso; apply Hsame in Hin; by auto);
    try (exfalso; apply Hsame in Hin'; by auto).
  - by apply IH.
  - apply IH. intros n. rewrite !elem_of_cons, Hsame. done.
Qed.

(** An accepted row: the loop body returns, and the results the next
    commit stores gain exactly the row's result. *)
Lemma upload_row_accepted (s : Session) (event : Event.t) (row : CsvRow.t) :
  accepted row → pending_fit s →
  ∃ s' r,
    upload_row event row s = (s', Returned ())
    ∧ pending_fit s'
    ∧ players (store s) `prefix_of` players (store s')
    ∧ events (store s') = events (store s)
    ∧ results (store s) `prefix_of` results (store s')
    ∧ all_results s' = all_results s ++ [r]
    ∧ ingested (Event.id event) (players (store s')) row r
    ∧ (∀ n, n ∈ Player.name <$> players (store s')
            ↔ n = Py.strip (CsvRow.player row)
              ∨ n ∈ Player.name <$> players (store s))
    ∧ length (new s')
      = if decide (Py.strip (CsvRow.player row)
                   ∈ Player.name <$> players (store s))
        then S (length (new s)) else 1%nat.
Proof.
  intros (z & Hint & Hz) Hfit.
  unfold upload_row, int_or_raise. rewrite Hint.
  rewrite bind_unfold. cbn [mret M_ret]. rewrite bind_unfold.
  unfold resolve_player, find_player. rewrite bind_unfold. cbn [query].
  destruct (head (filter _ (players (store s)))) as [p|] eqn:Hfind.
  - apply find_player_Some in Hfind as [Hp Hname].
    assert (Py.strip (CsvRow.player row) ∈ Player.name <$> players (store s))
      as Hknown by (rewrite <- Hname; by apply list_elem_of_fmap_2).
    cbn [mret M_ret add]. eexists _, _. split; [reflexivity|].
    cbn [store new players events results]. split_and!; try done.
    + apply Forall_app. split; [done|]. by apply Forall_singleton.
    + unfold all_results. simpl. apply insert_results_snoc.
    + exists p. by split_and!.
    + intros n. split; [by right|]. by intros [->|?].
    + rewrite decide_True by done. rewrite length_app. simpl. lia.
  - apply find_player_None in Hfind.
    unfold add_commit_refresh_player. rewrite (flush_fit s Hfit).
    cbn [add]. eexists _, _. split; [reflexivity|].
    cbn [store new players events results]. split_and!.
    + by apply Forall_singleton.
    + by apply prefix_app_r.
    + done.
    + apply insert_results_prefix.
    + done.
    + eexists. split; [apply elem_of_app; right; apply list_elem_of_here|].
      by split_and!.
    + intros n. rewrite fmap_app, elem_of_app. simpl.
      rewrite list_elem_of_singleton. tauto.
    + by rewrite decide_False.
Qed.

Lemma for_each_accepted (file : list CsvRow.t) (event : Event.t) (s : Session) :
  Forall accepted file → pending_fit s →
  ∃ s' rs,
    for_each file (upload_row event) s = (s', Returned ())
    ∧ pending_fit s'
    ∧ players (store s) `prefix_of` players (store s')
    ∧ events (store s') = events (store s)
    ∧ results (store s) `prefix_of` results (store s')
    ∧ all_results s' = all_results s ++ rs
    ∧ Forall2 (ingested (Event.id event) (players (store s'))) file rs
    ∧ length (new s')
      = waiting_after (Player.name <$> players (store s)) (length (new s)) file.
Proof.
  revert s. induction file as [|row file IH]; intros s Hfile Hfit.
  - exists s, []. split_and!; try done. by rewrite app_nil_r.
  - apply Forall_cons in Hfile as [Hrow Hfile].
    destruct (upload_row_accepted s event row Hrow Hfit)
      as (s1 & r & Hrun & Hfit1 & Hps1 & Hes1 & Hrs1 & Hall1 & Hr & Hnames & Hlen).
    destruct (IH s1 Hfile Hfit1)
      as (s2 & rs & Hrun2 & Hfit2 & Hps2 & Hes2 & Hrs2 & Hall2 & Hrs & Hlen2).
    exists s2, (r :: rs). rewrite for_each_cons, Hrun, Hrun2.
    split_and!; try done.
    + by etrans.
    + congruence.
    + by etrans.
    + rewrite Hall2, Hall1. by rewrite <- app_assoc.
    + constructor; [|done]. by apply (ingested_mono _ (players (store s1))).
    + rewrite Hlen2, Hlen. cbn [waiting_after].
      destruct (decide (_ ∈ Player.name <$> players (store s))) as [Hin|Hin];
        apply waiting_after_known; intros n; rewrite Hnames.
      * split; [by intros [->|?]|by right].
      * by rewrite elem_of_cons.
Qed.

Lemma find_event_None (event_name : string) (ev_date : date) (es : list Event.t) :
  (∀ e, e ∈ es → ¬ (Event.name e = event_name ∧ Event.event_date e = ev_date)) →
  head (filter (λ e, Event.name e = event_name ∧ Event.event_date e = ev_date) es)
  = None.
Proof.
  intros Hno. destruct (filter _ es) as [|e l] eqn:E; [done|]. exfalso.
  assert (e ∈ filter (λ e, Event.name e = event_name ∧ Event.event_date e = ev_date) es)
    as [He Hin]%list_elem_of_filter by (rewrite E; apply list_elem_of_here).
  by apply (Hno e).
Qed.

Lemma find_event_Some (event_name : string) (ev_date : date) (es : list Event.t)
    (e : Event.t) :
  e ∈ es → Event.name e = event_name → Event.event_date e = ev_date →
  ∃ e', head (filter (λ e, Event.name e = event_name ∧ Event.event_date e = ev_date) es)
        = Some e'.
Proof.
  intros He Hn Hd.
  assert (e ∈ filter (λ e, Event.name e = event_name ∧ Event.event_date e = ev_date) es)
    as Hin by by apply list_elem_of_filter.
  destruct (filter _ es) as [|e' l]; [by apply elem_of_nil in Hin|by exists e'].
Qed.

(** The handler up to the loop, for an identity that is not stored yet. *)
Lemma upload_results_new_event_unfold (db : DB) event_name event_date file ev_date :
  parse_event_date event_date = Returned ev_date →
  (∀ e, e ∈ events db →
        ¬ (Event.name e = event_name ∧ Event.event_date e = ev_date)) →
  let event :=
    Event.mk (next_id (Event.id <$> events db)) event_name ev_date
      None None None None None in
  let s0 :=
    {| store := {| players := players db;
                   events := events db ++ [event];
                   results := results db |};
       new := [] |} in
  upload_results event_name event_date file {| store := db; new := [] |}
  = match for_each file (upload_row event) s0 with
    | (s1, Returned _) =>
        match commit s1 with
        | (s2, Returned _) => (s2, Returned (Some (RedirectResponse "/" 303)))
        | (s2, Raised e) => (s2, Raised e)
        end
    | (s1, Raised e) => (s1, Raised e)
    end.
Proof.
  intros Hparse Hno event s0. unfold upload_results.
  rewrite bind_unfold. unfold lift. rewrite Hparse.
  rewrite bind_unfold. unfold find_event. cbn [query store events].
  rewrite (find_event_None _ _ _ Hno).
  rewrite bind_unfold.
  unfold add_commit_refresh_event at 1. unfold flush at 1.
  cbn [new forallb insert_results store results players events].
  fold event. fold s0. rewrite bind_unfold.
  destruct (for_each file (upload_row event) s0) as [s1 [[]|e]]; [|done].
  rewrite bind_unfold. by destruct (commit s1) as [s2 [[]|e]].
Qed.

End ingestion.

(** C9. When the event named by an upload is already stored, the handler
    changes nothing: no result, no player, no event is written, and the
    stored event is left as it is (the handler returns no response). *)
Theorem upload_results_existing_event (db : DB) (event_name event_date : string)
    (file : list CsvRow.t) (ev_date : date) (e : Event.t) :
  parse_event_date event_date = Returned ev_date →
  e ∈ events db → Event.name e = event_name → Event.event_date e = ev_date →
  run (upload_results event_name event_date file) db = (db, Returned None).
Proof.
  intros Hparse He Hn Hd. unfold run, upload_results.
  rewrite bind_unfold. unfold lift. rewrite Hparse.
  rewrite bind_unfold. unfold find_event. cbn [query store].
  destruct (find_event_Some event_name ev_date (events db) e He Hn Hd) as [e' ->].
  reflexivity.
Qed.

Lemma results_points_invariant_witness :
  Result.points (Result.mk 3 1 3 11 0) = points_for 11
  ∧ Result.points (Result.mk 3 1 3 11 0) ∈ [0; 1; 2; 4; 6; 8; 10; 12; 15; 18; 25]
  ∧ 0 ≤ Result.points (Result.mk 3 1 3 11 0)
  ∧ (∀ event_name event_date file,
       results spring_db
         `prefix_of`
         results (run (upload_results event_name event_date file) spring_db).1)
  ∧ (∀ name event_date st loc fmt url descr,
       results (run (create_event name event_date st loc fmt url descr) spring_db).1
       = results spring_db).
Proof.
  apply (results_points_invariant spring_db (Result.mk 3 1 3 11 0)).
  - unfold spring_db. apply reachable_upload_results, reachable_empty.
  - apply list_elem_of_In. vm_compute. right. right. left. reflexivity.
Defined.

Lemma upload_results_existing_event_witness :
  run (upload_results "Spring Open" "2024-04-01" [CsvRow.mk "Dan" "1"]) spring_db
  = (spring_db, Returned None).
Proof.
  apply (upload_results_existing_event spring_db "Spring Open" "2024-04-01" _
           (Date 2024 4 1)
           (Event.mk 1 "Spring Open" (Date 2024 4 1) None None None None None)).
  - reflexivity.
  - apply list_elem_of_In. vm_compute. left. reflexivity.
  - reflexivity.
  - reflexivity.
Defined.

(** C1, at an upload for an event that is already stored: the Cup was
    entered through the admin form, then two results are uploaded for it.
    No result row is stored and no player is created. *)
Theorem upload_results_for_created_event :
  cup_created = {| players := []; events := [cup_event]; results := [] |}
  ∧ run (upload_results "Cup" "2024-05-01"
           [CsvRow.mk "Alice" "1"; CsvRow.mk "Bob" "2"]) cup_created
    = (cup_created, Returned None).
Proof. split; reflexivity. Qed.

Section ingestion_outcomes.

Context (db : DB) (event_name event_date : string) (ev_date : date).
Hypothesis Hparse : parse_event_date event_date = Returned ev_date.
Hypothesis Hnew :
  ∀ e, e ∈ events db →
       ¬ (Event.name e = event_name ∧ Event.event_date e = ev_date).

Let event : Event.t :=
  Event.mk (next_id (Event.id <$> events db)) event_name ev_date
    None None None None None.

(** Every row accepted: the handler returns the redirect and stores one
    result per row. *)
Lemma upload_results_all_accepted (file : list CsvRow.t) :
  Forall accepted file →
  ∃ db' rs,
    run (upload_results event_name event_date file) db
    = (db', Returned (Some (RedirectResponse "/" 303)))
    ∧ events db' = events db ++ [event]
    ∧ players db `prefix_of` players db'
    ∧ results db' = results db ++ rs
    ∧ Forall2 (ingested (Event.id event) (players db')) file rs.
Proof.
  intros Hfile. unfold run.
  rewrite (upload_results_new_event_unfold db _ _ file _ Hparse Hnew).
  cbv zeta. fold event.
  edestruct (for_each_accepted file event) as
    (s1 & rs & -> & Hfit & Hps & Hes & _ & Hall & Hrs & _); [done|by constructor|].
  unfold commit. rewrite (flush_fit s1 Hfit). cbn [store].
  exists {| players := players (store s1); events := events (store s1);
            results := all_results s1 |}, rs.
  split_and!; try done.
Qed.

(** A row whose position is not an integer literal, after accepted rows:
    the handler raises at that row and keeps what was committed so far. *)
Lemma upload_results_rejected_row (before after : list CsvRow.t) (bad : CsvRow.t) :
  Forall accepted before →
  Py.int (CsvRow.position bad) = None →
  ∃ db' rs,
    run (upload_results event_name event_date (before ++ bad :: after)) db
    = (db', Raised ValueError)
    ∧ events db' = events db ++ [event]
    ∧ players db `prefix_of` players db'
    ∧ Forall2 (ingested (Event.id event) (players db')) before rs
    ∧ results db'
      = results db
        ++ take (length before
                 - waiting_after (Player.name <$> players db) 0 before) rs.
Proof.
  intros Hbefore Hbad. unfold run.
  rewrite (upload_results_new_event_unfold db _ _ _ _ Hparse Hnew).
  cbv zeta. fold event. rewrite for_each_app.
  edestruct (for_each_accepted before event) as
    (s1 & rs & -> & Hfit & Hps & Hes & Hrs1 & Hall & Hrs & Hwait);
    [done|by constructor|].
  rewrite for_each_cons.
  unfold upload_row at 1, int_or_raise. rewrite Hbad.
  rewrite bind_unfold. cbn [raise lift store].
  cbn [store players events results new length] in Hps, Hes, Hrs1, Hwait.
  unfold all_results at 2 in Hall. cbn [store new results insert_results] in Hall.
  destruct Hrs1 as [kept Hkept].
  exists (store s1), rs. split_and!; try done.
  rewrite Hkept. f_equal.
  assert (kept `prefix_of` rs) as [lost ->].
  { apply (prefix_app_inv (results db)). rewrite <- Hkept, <- Hall.
    apply insert_results_prefix. }
  pose proof (insert_results_length (new s1) (results (store s1))) as Hlen.
  fold (all_results s1) in Hlen. rewrite Hall, Hkept, Hwait in Hlen.
  apply Forall2_length in Hrs. rewrite !length_app in Hlen.
  rewrite length_app in Hrs.
  rewrite take_app_length'; [done|]. lia.
Qed.

End ingestion_outcomes.

(** C2, as the handler behaves: the five-row Cup upload whose third row
    has the position "x" raises, and the event, the players Alice and Bob
    and Alice's result stay stored. *)
Lemma upload_results_bad_row_keeps_rows :
  run (upload_results "Cup" "2024-05-01" cup_rows) empty_db
  = ({| players := [Player.mk 1 "Alice"; Player.mk 2 "Bob"];
        events := [cup_event];
        results := [Result.mk 1 1 1 1 25] |},
     Raised ValueError)
  ∧ (run (upload_results "Cup" "2024-05-01" cup_rows) empty_db).1 ≠ empty_db.
Proof. split; [reflexivity|discriminate]. Qed.

(** C2, amended.  For an event identity that is not stored yet, a row
    whose position is not an integer literal makes the upload raise
    [ValueError] at that row, and nothing is rolled back: the event created
    for the upload stays stored, so do the players of the rows before it,
    and the stored results are the old ones followed by the results [rs]
    of the rows before the failing one, except those still waiting for a
    commit: the results of the last row that brought a new player and of
    the rows after it.  No result of the failing row or of a later row is
    stored. *)
Theorem upload_results_no_rollback (db : DB) (event_name event_date : string)
    (ev_date : date) (before after : list CsvRow.t) (bad : CsvRow.t) :
  parse_event_date event_date = Returned ev_date →
  (∀ e, e ∈ events db →
        ¬ (Event.name e = event_name ∧ Event.event_date e = ev_date)) →
  Forall accepted before →
  Py.int (CsvRow.position bad) = None →
  ∃ db' rs,
    run (upload_results event_name event_date (before ++ bad :: after)) db
    = (db', Raised ValueError)
    ∧ events db'
      = events db
        ++ [Event.mk (next_id (Event.id <$> events db)) event_name ev_date
              None None None None None]
    ∧ players db `prefix_of` players db'
    ∧ Forall2 (ingested (next_id (Event.id <$> events db)) (players db'))
        before rs
    ∧ results db'
      = results db
        ++ take (length before
                 - waiting_after (Player.name <$> players db) 0 before) rs.
Proof.
  intros Hparse Hnew Hbefore Hbad.
  exact (upload_results_rejected_row db event_name event_date ev_date
           Hparse Hnew before after bad Hbefore Hbad).
Qed.

Lemma accepted_literal (player position : string) (z : Z) :
  Py.int position = Some z → fits_sqlite_int z = true →
  accepted (CsvRow.mk player position).
Proof. intros Hint Hfit. by exists z. Qed.

Lemma upload_results_no_rollback_witness :
  ∃ db' rs,
    run (upload_results "Cup" "2024-05-01" cup_rows) empty_db
    = (db', Raised ValueError)
    ∧ events db' = events empty_db ++ [cup_event]
    ∧ players empty_db `prefix_of` players db'
    ∧ Forall2 (ingested 1 (players db'))
        [CsvRow.mk "Alice" "1"; CsvRow.mk "Bob" "2"] rs
    ∧ results db' = results empty_db ++ take 1 rs.
Proof.
  apply (upload_results_no_rollback empty_db "Cup" "2024-05-01" cup_date
           [CsvRow.mk "Alice" "1"; CsvRow.mk "Bob" "2"]
           [CsvRow.mk "Dan" "4"; CsvRow.mk "Eve" "5"]
           (CsvRow.mk "Carol" "x")).
  - reflexivity.
  - intros e He. by apply elem_of_nil in He.
  - repeat constructor.
    + by apply (accepted_literal _ _ 1).
    + by apply (accepted_literal _ _ 2).
  - reflexivity.
Defined.

(** C5, as the handler behaves: a row whose player column holds only
    spaces is taken like any other; the upload returns its redirect, and a
    player with the empty name and a result for it are stored. *)
Lemma upload_results_blank_name_stored :
  run (upload_results "Cup" "2024-05-01" blank_rows) empty_db
  = ({| players := [Player.mk 1 ""];
        events := [cup_event];
        results := [Result.mk 1 1 1 1 25] |},
     Returned (Some (RedirectResponse "/" 303))).
Proof. reflexivity. Qed.

(** C5, amended.  The handler does not check the player name.  For an
    event identity that is not stored yet and rows whose positions are
    integer literals, the upload returns its redirect and stores one result
    per row, each for the player whose name is the trimmed player column;
    for a row whose trimmed name is empty this is a player named by the
    empty string, found or created like any other. *)
Theorem upload_results_blank_names (db : DB) (event_name event_date : string)
    (ev_date : date) (file : list CsvRow.t) :
  parse_event_date event_date = Returned ev_date →
  (∀ e, e ∈ events db →
        ¬ (Event.name e = event_name ∧ Event.event_date e = ev_date)) →
  Forall accepted file →
  ∃ db' rs,
    run (upload_results event_name event_date file) db
    = (db', Returned (Some (RedirectResponse "/" 303)))
    ∧ results db' = results db ++ rs
    ∧ Forall2 (ingested (next_id (Event.id <$> events db)) (players db')) file rs
    ∧ (Exists (λ row, Py.strip (CsvRow.player row) = "") file →
       ∃ p r, p ∈ players db' ∧ Player.name p = ""
              ∧ r ∈ rs ∧ Result.player_id r = Player.id p).
Proof.
  intros Hparse Hnew Hfile.
  destruct (upload_results_all_accepted db event_name event_date ev_date
              Hparse Hnew file Hfile) as (db' & rs & Hrun & _ & _ & Hrs & Hing).
  exists db', rs. split_and!; try done.
  clear Hrun Hrs Hfile. cbn [Event.id] in Hing.
  induction Hing as [|row r file rs (p & Hp & Hname & Hid & _) _ IH].
  - by intros ?%Exists_nil.
  - intros [Hblank|Hlater]%Exists_cons.
    + exists p, r. split_and!; [done|congruence|apply list_elem_of_here|done].
    + destruct (IH Hlater) as (p' & r' & ? & ? & ? & ?).
      exists p', r'. split_and!; try done. by apply list_elem_of_further.
Qed.

Lemma upload_results_blank_names_witness :
  ∃ db' rs,
    run (upload_results "Cup" "2024-05-01" blank_rows) empty_db
    = (db', Returned (Some (RedirectResponse "/" 303)))
    ∧ results db' = results empty_db ++ rs
    ∧ Forall2 (ingested 1 (players db')) blank_rows rs
    ∧ (Exists (λ row, Py.strip (CsvRow.player row) = "") blank_rows →
       ∃ p r, p ∈ players db' ∧ Player.name p = ""
              ∧ r ∈ rs ∧ Result.player_id r = Player.id p).
Proof.
  apply (upload_results_blank_names empty_db "Cup" "2024-05-01" cup_date blank_rows).
  - reflexivity.
  - intros e He. by apply elem_of_nil in He.
  - repeat constructor. by apply (accepted_literal _ _ 1).
Defined.

(** ** Lookups by a unique column *)

Section unique_column.

Context {A K : Type} `{EqDecision K} (f : A → K).

Lemma filter_key_absent (k : K) (l : list A) :
  k ∉ f <$> l → filter (λ y, f y = k) l = [].
Proof.
  induction l as [|y l IH]; [done|]. rewrite fmap_cons, not_elem_of_cons.
  intros [Hne Hl]. rewrite filter_cons, decide_False by done. by apply IH.
Qed.

Lemma filter_key_singleton (x : A) (l : list A) :
  NoDup (f <$> l) → x ∈ l → filter (λ y, f y = f x) l = [x].
Proof.
  induction l as [|y l IH]; intros Hnodup Hx.
  - by apply elem_of_nil in Hx.
  - rewrite fmap_cons in Hnodup. apply NoDup_cons in Hnodup as [Hy Hnodup].
    rewrite filter_cons. apply elem_of_cons in Hx as [->|Hx].
    + rewrite decide_True by done. f_equal. by apply filter_key_absent.
    + rewrite decide_False; [by apply IH|].
      intros Heq. apply Hy. rewrite Heq. by apply list_elem_of_fmap_2.
Qed.


End unique_column.

(** ** The results of one event *)

Section event_results.

Lemma join_player_cons (r : Result.t) (rs : list Result.t) (ps : list Player.t) :
  join_player (r :: rs) ps
  = ((λ p, (r, p)) <$> filter (λ p, Player.id p = Result.player_id r) ps)
    ++ join_player rs ps.
Proof.
  unfold join_player. rewrite bind_cons. f_equal.
Qed.

Lemma join_player_elem (rs : list Result.t) (ps : list Player.t)
    (r : Result.t) (p : Player.t) :
  (r, p) ∈ join_player rs ps
  ↔ r ∈ rs ∧ p ∈ ps ∧ Player.id p = Result.player_id r.
Proof.
  unfold join_player. rewrite list_elem_of_bind. split.
  - intros (r' & (p' & Hrp & Hp')%list_elem_of_bind & Hr').
    apply list_elem_of_singleton in Hrp. injection Hrp as -> ->.
    apply list_elem_of_filter in Hp'. tauto.
  - intros (Hr & Hp & Hid). exists r. split; [|done].
    apply list_elem_of_bind. exists p. split; [apply list_elem_of_here|].
    by apply list_elem_of_filter.
Qed.

(** With the primary key on players and every result pointing at a
    stored player, the join has one row per result. *)
Lemma join_player_results (rs : list Result.t) (ps : list Player.t) :
  NoDup (Player.id <$> ps) →
  (∀ r, r ∈ rs → ∃ p, p ∈ ps ∧ Player.id p = Result.player_id r) →
  (join_player rs ps).*1 = rs.
Proof.
  intros Hnodup. induction rs as [|r rs IH]; intros Hfk; [done|].
  rewrite join_player_cons, fmap_app, IH.
  - destruct (Hfk r) as (p & Hp & Hid); [apply list_elem_of_here|].
    rewrite <- Hid, (filter_key_singleton Player.id p ps) by done. done.
  - intros r' Hr'. apply Hfk. by apply list_elem_of_further.
Qed.

Lemma fst_filter_event (event_id : Z) (l : list (Result.t * Player.t)) :
  (filter (λ rp, Result.event_id rp.1 = event_id) l).*1
  = filter (λ r, Result.event_id r = event_id) (l.*1).
Proof.
  induction l as [|[r p] l IH]; [done|].
  rewrite fmap_cons, !filter_cons. simpl.
  destruct (decide (Result.event_id r = event_id)); by rewrite ?fmap_cons, IH.
Qed.

Lemma run_event_detail (db : DB) (event_id : Z) :
  run (event_detail event_id) db
  = (db,
     match head (filter (λ e, Event.id e = event_id) (events db)) with
     | None => Raised (HTTPException 404 "Event not found")
     | Some event =>
         Returned
           (event,
            merge_sort position_le
              (filter (λ rp, Result.event_id rp.1 = event_id)
                 (join_player (results db) (players db))))
     end).
Proof.
  unfold run, event_detail. rewrite bind_unfold. cbn [query store].
  by destruct (head _).
Qed.

End event_results.



(** ** Find-or-create *)

Section find_or_create.





End find_or_create.




(** * Further properties of the handlers *)

(** ** Invariants of a session, step by step *)

Section session_invariant.

Context (I : Session → Prop).

Lemma invariant_bind {A B} (m : M A) (f : A → M B) (s : Session) :
  I (m s).1 →
  (∀ a s', m s = (s', Returned a) → I s' → I (f a s').1) →
  I ((m ≫= f) s).1.
Proof.
  intros Hm Hf. rewrite bind_unfold.
  destruct (m s) as [s' [a|e]] eqn:E; [|done]. by apply Hf.
Qed.

Lemma invariant_for_each {A} (l : list A) (body : A → M unit) (s : Session) :
  (∀ x s, I s → I (body x s).1) → I s → I (for_each l body s).1.
Proof.
  intros Hbody. revert s. induction l as [|x l IH]; intros s Hs; [done|].
  cbn [for_each]. apply invariant_bind; [by apply Hbody|].
  intros [] s' _ Hs'. by apply IH.
Qed.

End session_invariant.

(** ** Trimming *)

Section trimming.

Context (space : ascii → bool).

Lemma rev_app_append (s1 s2 s3 : string) :
  String.rev_app s1 s2 +:+ s3 = String.rev_app s1 (s2 +:+ s3).
Proof. revert s2. induction s1 as [|a s1 IH]; intros s2; [done|]. apply IH. Qed.

Lemma rev_app_rev (s1 s2 : string) :
  String.rev_app s1 s2 = String.rev s1 +:+ s2.
Proof. unfold String.rev. by rewrite rev_app_append. Qed.

Lemma rev_app_app (s1 s2 s3 : string) :
  String.rev_app (s1 +:+ s2) s3 = String.rev_app s2 (String.rev_app s1 s3).
Proof. revert s3. induction s1 as [|a s1 IH]; intros s3; [done|]. apply IH. Qed.

Lemma rev_append (s1 s2 : string) :
  String.rev (s1 +:+ s2) = String.rev s2 +:+ String.rev s1.
Proof. unfold String.rev at 1. by rewrite rev_app_app, rev_app_rev. Qed.

Lemma append_empty_r (s : string) : s +:+ "" = s.
Proof.
  induction s as [|a s IH]; [done|].
  change (String a (s +:+ "") = String a s). by rewrite IH.
Qed.

Lemma rev_rev (s : string) : String.rev (String.rev s) = s.
Proof.
  induction s as [|a s IH]; [done|].
  change (String a s) with (String a "" +:+ s) at 1.
  rewrite rev_append, rev_append, IH. done.
Qed.

(** A text that does not begin with a space. *)
Let trimmed_left (s : string) : Prop :=
  match s with
  | EmptyString => True
  | String c _ => space c = false
  end.

Lemma lstrip_with_trimmed (s : string) : trimmed_left (Py.lstrip_with space s).
Proof.
  induction s as [|c s IH]; [done|]. simpl.
  by destruct (space c) eqn:E.
Qed.

Lemma lstrip_with_id (s : string) :
  trimmed_left s → Py.lstrip_with space s = s.
Proof. destruct s as [|c s]; [done|]. simpl. by intros ->. Qed.

Lemma lstrip_with_suffix (s : string) :
  ∃ w, s = w +:+ Py.lstrip_with space s.
Proof.
  induction s as [|c s [w IH]]; [by exists ""|]. simpl.
  destruct (space c); [|by exists ""].
  exists (String c w).
  change (String c s = String c (w +:+ Py.lstrip_with space s)). by rewrite <- IH.
Qed.

Lemma trimmed_left_prefix (s1 s2 : string) :
  trimmed_left (s1 +:+ s2) → trimmed_left s1.
Proof. by destruct s1. Qed.

(** Trimming a trimmed text changes nothing. *)
Lemma strip_with_idempotent (s : string) :
  Py.strip_with space (Py.strip_with space s) = Py.strip_with space s.
Proof.
  unfold Py.strip_with.
  set (t := Py.lstrip_with space s).
  set (u := Py.lstrip_with space (String.rev t)).
  assert (trimmed_left (String.rev u)) as Hv.
  { destruct (lstrip_with_suffix (String.rev t)) as [w Hw]. fold u in Hw.
    apply (f_equal String.rev) in Hw. rewrite rev_rev, rev_append in Hw.
    apply (trimmed_left_prefix _ (String.rev w)). rewrite <- Hw.
    apply lstrip_with_trimmed. }
  rewrite (lstrip_with_id (String.rev u) Hv), rev_rev.
  rewrite (lstrip_with_id u); [done|]. apply lstrip_with_trimmed.
Qed.

End trimming.

Lemma strip_idempotent (s : string) : Py.strip (Py.strip s) = Py.strip s.
Proof. apply strip_with_idempotent. Qed.

(** ** Dates *)

Section dates.

Lemma date_ymd_valid (y m d : Z) (dt : date) :
  date_ymd y m d = Returned dt → dt = Date y m d ∧ valid_date dt.
Proof.
  unfold date_ymd. destruct (negb _); [done|].
  destruct (_ && _) eqn:Hrange; [|done]. intros [= <-]. split; [done|].
  repeat (apply andb_prop in Hrange as [Hrange ?]).
  unfold valid_date. simpl. lia.
Qed.

Lemma parse_event_date_valid (text : string) (d : date) :
  parse_event_date text = Returned d → valid_date d.
Proof.
  unfold parse_event_date.
  destruct (mapM _ _) as [[|y [|m [|dd [|? ?]]]]|]; try done.
  by intros [_ ?]%date_ymd_valid.
Qed.

Lemma split_length (sep : ascii) (s : string) :
  length (Py.split sep s) = S (count_char sep s).
Proof.
  induction s as [|c s IH]; [done|]. simpl.
  destruct (bool_decide (c = sep)); simpl; [by rewrite IH|].
  destruct (Py.split sep s); simpl in *; lia.
Qed.

End dates.

(** ** More that holds in every database the program produces *)

Section well_formedness.

Lemma next_id_pos (ids : list Z) : 0 < next_id ids.
Proof.
  unfold next_id. assert (0 ≤ foldr Z.max 0 ids); [|lia].
  induction ids as [|x ids IH]; simpl; lia.
Qed.

Lemma ascending_nil : ascending [].
Proof. repeat constructor. Qed.

Lemma ascending_snoc (ids : list Z) :
  ascending ids → ascending (ids ++ [next_id ids]).
Proof.
  unfold ascending. intros Hids.
  change (StronglySorted Z.lt ((0 :: ids) ++ [next_id ids])).
  apply StronglySorted_app. split_and!; [|done|repeat constructor].
  intros x1 x2 [->|Hx1]%elem_of_cons ->%list_elem_of_singleton.
  - apply next_id_pos.
  - by apply next_id_above.
Qed.

Lemma ascending_NoDup (ids : list Z) : ascending ids → NoDup ids.
Proof.
  unfold ascending. intros [_ Hids]%StronglySorted_cons.
  induction Hids as [|x ids _ IH Hx]; constructor; [|done].
  intros Hin. apply (proj1 (Forall_forall _ _) Hx) in Hin. lia.
Qed.

Lemma ascending_pos (ids : list Z) (x : Z) : ascending ids → x ∈ ids → 0 < x.
Proof.
  unfold ascending. intros [Hpos _]%StronglySorted_cons Hx.
  by apply (proj1 (Forall_forall _ _) Hpos).
Qed.

Lemma insert_results_ascending (pending : list NewResult.t) (rs : list Result.t) :
  ascending (Result.id <$> rs) →
  ascending (Result.id <$> insert_results pending rs).
Proof.
  revert rs. induction pending as [|n l IH]; intros rs Hrs; [done|].
  simpl. apply IH. rewrite fmap_app. by apply ascending_snoc.
Qed.

Lemma well_formed_empty : well_formed empty_db.
Proof.
  split_and!; (split; [apply ascending_nil|]);
    simpl; intros x Hx; by apply elem_of_nil in Hx.
Qed.

Lemma well_formed_open (db : DB) :
  well_formed db → well_formed_session {| store := db; new := [] |}.
Proof. intros H. split; [done|]. intros n Hn. by apply elem_of_nil in Hn. Qed.

(** What a successful flush leaves in the results table. *)
Lemma results_ok_flush (s : Session) (rs : list Result.t) (es : list Event.t) :
  well_formed_session s → flush s = Returned rs →
  events (store s) `prefix_of` es → results_ok es rs.
Proof.
  intros [(_ & _ & Hids & Hrs) Hnew] Hflush Hes. unfold flush in Hflush.
  destruct (forallb _ (new s)) eqn:Hfit; [|done]. injection Hflush as <-.
  split; [by apply insert_results_ascending|].
  intros r [Hr|(n & id & Hn & ->)]%insert_results_elem.
  - destruct (Hrs r Hr) as [(e & He & Hid) Hpos]. split; [|done].
    exists e. split; [|done]. by apply (elem_of_prefix (events (store s))).
  - destruct (Hnew n Hn) as (e & He & Hid). split.
    + exists e. split; [|done]. by apply (elem_of_prefix (events (store s))).
    + simpl. apply (proj1 (forallb_forall _ _) Hfit n). by apply list_elem_of_In.
Qed.

Lemma or_None_not_blank (x : option string) : Py.or_None x ≠ Some EmptyString.
Proof. by destruct x as [[|c s]|]. Qed.

Lemma well_formed_commit (s : Session) :
  well_formed_session s → well_formed_session (commit s).1.
Proof.
  intros Hs. unfold commit. destruct (flush s) as [rs|e] eqn:Hflush; [|done].
  pose proof (results_ok_flush s rs (events (store s)) Hs Hflush) as Hrs.
  destruct Hs as [(Hps & Hes & _) _]. cbn [fst].
  split; [by split_and!; [| |apply Hrs]|].
  cbn [new]. intros n Hn. by apply elem_of_nil in Hn.
Qed.

Lemma well_formed_add_commit_refresh_event (s : Session) name d st loc fmt url descr :
  well_formed_session s → valid_date d →
  Forall (λ x, x ≠ Some EmptyString) [st; loc; fmt; url; descr] →
  well_formed_session (add_commit_refresh_event name d st loc fmt url descr s).1.
Proof.
  intros Hs Hd Htexts. unfold add_commit_refresh_event.
  destruct (flush s) as [rs|e] eqn:Hflush; [|done].
  pose proof (results_ok_flush s rs _ Hs Hflush
                (prefix_app_r _ _ [Event.mk (next_id (Event.id <$> events (store s)))
                                     name d st loc fmt url descr]
                   (reflexivity _))) as Hrs.
  destruct Hs as [(Hps & [Hids Hdates] & _) _]. cbn [fst].
  split; [split_and!; [done| |done]|]; cbn [store players events results new].
  - split.
    + rewrite fmap_app. by apply ascending_snoc.
    + intros e [He|He%list_elem_of_singleton]%elem_of_app; [by apply Hdates|].
      by subst e.
  - intros n Hn. by apply elem_of_nil in Hn.
Qed.

Lemma well_formed_add_commit_refresh_player (s : Session) (name : string) :
  well_formed_session s → Py.strip name = name →
  well_formed_session (add_commit_refresh_player name s).1.
Proof.
  intros Hs Hname. unfold add_commit_refresh_player.
  destruct (flush s) as [rs|e] eqn:Hflush; [|done].
  pose proof (results_ok_flush s rs (events (store s)) Hs Hflush) as Hrs.
  destruct Hs as [([Hids Hnames] & Hes & _) _]. cbn [fst].
  split; [split_and!; [|done|by apply Hrs]|]; cbn [store players events results new].
  - split.
    + rewrite fmap_app. by apply ascending_snoc.
    + intros p [Hp|Hp%list_elem_of_singleton]%elem_of_app; [by apply Hnames|].
      by subst p.
  - intros n Hn. by apply elem_of_nil in Hn.
Qed.

(** The loop body, for an event that is stored. *)
Lemma well_formed_upload_row (event : Event.t) (row : CsvRow.t) (s : Session) :
  well_formed_session s ∧ event ∈ events (store s) →
  well_formed_session (upload_row event row s).1
  ∧ event ∈ events (store (upload_row event row s).1).
Proof.
  intros [Hs Hev].
  pose proof (extends_upload_row s event row) as (_ & Hes & _).
  split; [|by apply (elem_of_prefix (events (store s)))].
  clear Hes. unfold upload_row, int_or_raise.
  destruct (Py.int (CsvRow.position row)) as [z|]; [|exact Hs].
  rewrite bind_unfold. cbn [mret M_ret]. apply invariant_bind.
  { unfold resolve_player, find_player. rewrite bind_unfold. cbn [query].
    destruct (head _); [done|].
    apply well_formed_add_commit_refresh_player; [done|].
    apply strip_idempotent. }
  intros p s2 Hres [Hwf Hnew]. split; [done|]. cbn [add fst new store].
  intros n [Hn|Hn%list_elem_of_singleton]%elem_of_app; [by apply Hnew|].
  subst n. exists event. split; [|done].
  pose proof (extends_resolve_player s (Py.strip (CsvRow.player row))) as (_ & Hes & _).
  rewrite Hres in Hes. by apply (elem_of_prefix (events (store s))).
Qed.

Lemma well_formed_upload_results_session (s : Session) event_name event_date file :
  well_formed_session s →
  well_formed_session (upload_results event_name event_date file s).1.
Proof.
  intros Hs. unfold upload_results. rewrite bind_unfold. unfold lift.
  destruct (parse_event_date event_date) as [d|e] eqn:Hparse; [|done].
  apply parse_event_date_valid in Hparse.
  apply invariant_bind; [done|].
  intros [ev|] s2 [= <- _] _; [done|]. rewrite bind_unfold.
  pose proof (well_formed_add_commit_refresh_event s event_name d None None
                None None None Hs Hparse) as Hs3.
  specialize (Hs3 ltac:(by repeat constructor)).
  assert (∀ s3 ev, add_commit_refresh_event event_name d None None None None None s
                   = (s3, Returned ev) → ev ∈ events (store s3)) as Hev.
  { unfold add_commit_refresh_event. destruct (flush s); [|done].
    intros s3 ev [= <- <-]. cbn [store events].
    apply elem_of_app. right. apply list_elem_of_here. }
  destruct (add_commit_refresh_event _ _ _ _ _ _ _ s) as [s3 [ev|e]]; [|done].
  cbn [fst] in Hs3. specialize (Hev s3 ev eq_refl).
  apply invariant_bind.
  { apply (invariant_for_each
             (λ s, well_formed_session s ∧ ev ∈ events (store s)));
      [|done].
    intros row s'. apply well_formed_upload_row. }
  intros [] s4 _ Hs4. apply invariant_bind; [by apply well_formed_commit|].
  by intros [] s5 _ Hs5.
Qed.

Lemma well_formed_create_event_session (s : Session) name event_date
    st loc fmt url descr :
  well_formed_session s →
  well_formed_session (create_event name event_date st loc fmt url descr s).1.
Proof.
  intros Hs. unfold create_event. rewrite bind_unfold. unfold lift.
  destruct (parse_event_date event_date) as [d|e] eqn:Hparse; [|done].
  apply parse_event_date_valid in Hparse.
  apply invariant_bind.
  { apply well_formed_add_commit_refresh_event; [done|done|].
    repeat constructor; apply or_None_not_blank. }
  by intros ev s2 _ Hs2.
Qed.

Lemma well_formed_run {A} (handler : M A) (db : DB) :
  (∀ s, well_formed_session s → well_formed_session (handler s).1) →
  well_formed db → well_formed (run handler db).1.
Proof.
  intros Hh Hdb. unfold run.
  specialize (Hh _ (well_formed_open db Hdb)).
  destruct (handler _) as [s o]. by destruct Hh.
Qed.

Lemma reachable_well_formed (db : DB) : reachable db → well_formed db.
Proof.
  induction 1 as [|db ? ? ? ? ? ? ? _ IH|db ? ? ? _ IH].
  - apply well_formed_empty.
  - apply well_formed_run; [|done].
    intros s. apply well_formed_create_event_session.
  - apply well_formed_run; [|done].
    intros s. apply well_formed_upload_results_session.
Qed.

End well_formedness.

(** X1. Primary keys.  In every database the program produces, the ids of
    each table are positive and grow strictly along the table, so no two
    rows of a table share an id. *)
Theorem ids_ascending (db : DB) :
  reachable db →
  (Forall (λ i, 0 < i) (Player.id <$> players db)
   ∧ StronglySorted Z.lt (Player.id <$> players db)
   ∧ NoDup (Player.id <$> players db))
  ∧ (Forall (λ i, 0 < i) (Event.id <$> events db)
     ∧ StronglySorted Z.lt (Event.id <$> events db)
     ∧ NoDup (Event.id <$> events db))
  ∧ (Forall (λ i, 0 < i) (Result.id <$> results db)
     ∧ StronglySorted Z.lt (Result.id <$> results db)
     ∧ NoDup (Result.id <$> results db)).
Proof.
  intros ([Hps _] & [Hes _] & [Hrs _])%reachable_well_formed.
  assert (∀ ids, ascending ids →
                 Forall (λ i, 0 < i) ids ∧ StronglySorted Z.lt ids ∧ NoDup ids)
    as Hasc.
  { intros ids Hids. split_and!.
    - apply Forall_forall. intros x. by apply ascending_pos.
    - by apply StronglySorted_cons in Hids as [_ ?].
    - by apply ascending_NoDup. }
  split_and!; by apply Hasc.
Qed.

Lemma ids_ascending_witness :
  (Forall (λ i, 0 < i) (Player.id <$> players spring_db)
   ∧ StronglySorted Z.lt (Player.id <$> players spring_db)
   ∧ NoDup (Player.id <$> players spring_db))
  ∧ (Forall (λ i, 0 < i) (Event.id <$> events spring_db)
     ∧ StronglySorted Z.lt (Event.id <$> events spring_db)
     ∧ NoDup (Event.id <$> events spring_db))
  ∧ (Forall (λ i, 0 < i) (Result.id <$> results spring_db)
     ∧ StronglySorted Z.lt (Result.id <$> results spring_db)
     ∧ NoDup (Result.id <$> results spring_db)).
Proof.
  apply (ids_ascending spring_db).
  unfold spring_db. apply reachable_upload_results, reachable_empty.
Defined.

(** X2. Foreign keys.  In every database the program produces, each
    result refers to an event and to a player that are stored. *)
Theorem result_references_stored (db : DB) (r : Result.t) :
  reachable db → r ∈ results db →
  (∃ e, e ∈ events db ∧ Event.id e = Result.event_id r)
  ∧ (∃ p, p ∈ players db ∧ Player.id p = Result.player_id r).
Proof.
  intros Hdb Hr. split.
  - apply reachable_well_formed in Hdb as (_ & _ & [_ Hrs]). by apply Hrs.
  - apply reachable_consistent in Hdb. by apply (result_players_exist db).
Qed.

Lemma result_references_stored_witness :
  (∃ e, e ∈ events spring_db ∧ Event.id e = Result.event_id (Result.mk 2 1 2 2 18))
  ∧ (∃ p, p ∈ players spring_db
          ∧ Player.id p = Result.player_id (Result.mk 2 1 2 2 18)).
Proof.
  apply (result_references_stored spring_db (Result.mk 2 1 2 2 18)).
  - unfold spring_db. apply reachable_upload_results, reachable_empty.
  - apply list_elem_of_In. vm_compute. right. left. reflexivity.
Defined.

(** X3. The position of every stored result is a signed 64-bit integer:
    an upload never stores a position outside that range. *)
Theorem stored_positions_fit (db : DB) (r : Result.t) :
  reachable db → r ∈ results db →
  - 2 ^ 63 ≤ Result.position r < 2 ^ 63.
Proof.
  intros (_ & _ & [_ Hrs])%reachable_well_formed Hr.
  destruct (Hrs r Hr) as [_ Hfit]. unfold fits_sqlite_int in Hfit.
  apply andb_prop in Hfit as [H1 H2]. lia.
Qed.

Lemma stored_positions_fit_witness :
  - 2 ^ 63 ≤ Result.position (Result.mk 3 1 3 11 0) < 2 ^ 63.
Proof.
  apply (stored_positions_fit spring_db (Result.mk 3 1 3 11 0)).
  - unfold spring_db. apply reachable_upload_results, reachable_empty.
  - apply list_elem_of_In. vm_compute. right. right. left. reflexivity.
Defined.

(** X4. The date of a form is accepted only when its text has exactly two
    hyphens, and then it is a date of the calendar: year 1..9999, month
    1..12, and a day that the month has in that year. *)
Theorem parse_event_date_accepts (text : string) (d : date) :
  parse_event_date text = Returned d →
  count_char "-" text = 2%nat
  ∧ 1 ≤ year d ≤ 9999 ∧ 1 ≤ month d ≤ 12
  ∧ 1 ≤ day d ≤ days_in_month (year d) (month d).
Proof.
  intros Hparse. split; [|by apply (parse_event_date_valid text)].
  unfold parse_event_date in Hparse.
  destruct (mapM Py.int (Py.split "-" text)) as [zs|] eqn:Hints; [|done].
  apply length_mapM in Hints. rewrite split_length in Hints.
  destruct zs as [|y [|m [|dd [|? ?]]]]; try done. simpl in Hints. lia.
Qed.

Lemma parse_event_date_accepts_witness :
  count_char "-" "2024-05-01" = 2%nat
  ∧ 1 ≤ year cup_date ≤ 9999 ∧ 1 ≤ month cup_date ≤ 12
  ∧ 1 ≤ day cup_date ≤ days_in_month (year cup_date) (month cup_date).
Proof. apply (parse_event_date_accepts "2024-05-01" cup_date). reflexivity. Defined.

(** X5. Every stored event has a date of the calendar, whichever of the
    two forms created it. *)
Theorem stored_event_dates_valid (db : DB) (e : Event.t) :
  reachable db → e ∈ events db →
  1 ≤ year (Event.event_date e) ≤ 9999
  ∧ 1 ≤ month (Event.event_date e) ≤ 12
  ∧ 1 ≤ day (Event.event_date e)
    ≤ days_in_month (year (Event.event_date e)) (month (Event.event_date e)).
Proof.
  intros (_ & [_ Hes] & _)%reachable_well_formed He. by apply Hes.
Qed.

Lemma stored_event_dates_valid_witness :
  1 ≤ year (Event.event_date cup_event) ≤ 9999
  ∧ 1 ≤ month (Event.event_date cup_event) ≤ 12
  ∧ 1 ≤ day (Event.event_date cup_event)
    ≤ days_in_month (year (Event.event_date cup_event))
        (month (Event.event_date cup_event)).
Proof.
  apply (stored_event_dates_valid cup_created cup_event).
  - unfold cup_created. apply reachable_create_event, reachable_empty.
  - apply list_elem_of_In. vm_compute. left. reflexivity.
Defined.

(** X6. Every stored player name is trimmed: trimming it again changes
    nothing, so no player is stored under a name with surrounding
    whitespace. *)
Theorem stored_player_names_trimmed (db : DB) (p : Player.t) :
  reachable db → p ∈ players db → Py.strip (Player.name p) = Player.name p.
Proof.
  intros ([_ Hps] & _)%reachable_well_formed Hp. by apply Hps.
Qed.

Lemma stored_player_names_trimmed_witness :
  Py.strip (Player.name (Player.mk 2 "Bob")) = Player.name (Player.mk 2 "Bob").
Proof.
  apply (stored_player_names_trimmed spring_db (Player.mk 2 "Bob")).
  - unfold spring_db. apply reachable_upload_results, reachable_empty.
  - apply list_elem_of_In. vm_compute. right. left. reflexivity.
Defined.

(** ** The two forms *)

Section forms.

Lemma parse_event_date_raises (text : string) (e : exn) :
  parse_event_date text = Raised e → e = ValueError ∨ e = OverflowError.
Proof.
  unfold parse_event_date, date_ymd.
  destruct (mapM _ _) as [[|y [|m [|dd [|? ?]]]]|]; try (intros [= <-]; by left).
  destruct (negb _); [intros [= <-]; by right|].
  destruct (_ && _); [done|]. intros [= <-]. by left.
Qed.

Lemma run_create_event (db : DB) name event_date st loc fmt url descr :
  run (create_event name event_date st loc fmt url descr) db
  = match parse_event_date event_date with
    | Returned d =>
        let event :=
          Event.mk (next_id (Event.id <$> events db)) name d
            (Py.or_None st) (Py.or_None loc) (Py.or_None fmt)
            (Py.or_None url) (Py.or_None descr) in
        ({| players := players db; events := events db ++ [event];
            results := results db |},
         Returned (RedirectResponse ("/events/" +:+ pretty (Event.id event)) 303))
    | Raised e => (db, Raised e)
    end.
Proof.
  unfold run, create_event. rewrite bind_unfold. unfold lift.
  by destruct (parse_event_date event_date).
Qed.

Lemma head_filter_None {A} (P : A → Prop) `{∀ x, Decision (P x)} (l : list A) :
  head (filter P l) = None → ∀ x, x ∈ l → ¬ P x.
Proof.
  intros Hnone x Hx HP.
  assert (x ∈ filter P l) as Hin by by apply list_elem_of_filter.
  destruct (filter P l); [by apply elem_of_nil in Hin|done].
Qed.

(** An upload for an identity that is stored. *)
Lemma run_upload_results_found (db : DB) event_name event_date file d e :
  parse_event_date event_date = Returned d →
  e ∈ events db → Event.name e = event_name → Event.event_date e = d →
  run (upload_results event_name event_date file) db = (db, Returned None).
Proof.
  intros Hparse He Hn Hd. unfold run, upload_results.
  rewrite bind_unfold. unfold lift. rewrite Hparse.
  rewrite bind_unfold. unfold find_event. cbn [query store].
  destruct (find_event_Some event_name d (events db) e He Hn Hd) as [e' ->].
  reflexivity.
Qed.

(** After an upload whose date parses, an event of its identity is stored,
    whatever became of the rows. *)
Lemma upload_results_leaves_event (db : DB) event_name event_date file d :
  parse_event_date event_date = Returned d →
  ∃ e, e ∈ events (run (upload_results event_name event_date file) db).1
       ∧ Event.name e = event_name ∧ Event.event_date e = d.
Proof.
  intros Hparse.
  destruct (head (filter (λ e, Event.name e = event_name ∧ Event.event_date e = d)
                    (events db))) as [e|] eqn:Hfind.
  - apply head_Some_elem_of, list_elem_of_filter in Hfind as [[Hn Hd] He].
    exists e. by rewrite (run_upload_results_found db _ _ file d e).
  - pose proof (head_filter_None _ _ Hfind) as Hnew.
    eexists (Event.mk _ event_name d None None None None None).
    split; [|done]. unfold run.
    rewrite (upload_results_new_event_unfold db _ _ file _ Hparse Hnew).
    cbv zeta.
    match goal with |- context [for_each file (upload_row ?ev) ?s0] =>
      pose proof (extends_for_each file ev s0) as (_ & Hes1 & _);
      assert (ev ∈ events (store s0)) as Hev0
        by (cbn [store events]; apply elem_of_app; right; apply list_elem_of_here);
      destruct (for_each file (upload_row ev) s0) as [s1 [[]|err]]
    end; cbn [fst] in Hes1;
      pose proof (elem_of_prefix _ _ _ Hev0 Hes1) as Hev1; [|done].
    pose proof (extends_commit s1) as (_ & Hes2 & _).
    destruct (commit s1) as [s2 [[]|err]]; cbn [fst] in *;
      by apply (elem_of_prefix (events (store s1))).
Qed.

End forms.

(** X7. The admin form, with a date that parses, always appends one new
    event, also when an event of that name and date is stored already: its
    id is above every stored id, its optional texts are the given ones with
    the empty text turned into no text, the players and the results are
    left alone, and the redirect goes to the page of the new event. *)
Theorem create_event_inserts (db : DB) (name event_date : string)
    (st loc fmt url descr : option string) (d : date) :
  parse_event_date event_date = Returned d →
  ∃ e,
    run (create_event name event_date st loc fmt url descr) db
    = ({| players := players db; events := events db ++ [e];
          results := results db |},
       Returned (RedirectResponse ("/events/" +:+ pretty (Event.id e)) 303))
    ∧ (∀ e', e' ∈ events db → Event.id e' < Event.id e)
    ∧ 0 < Event.id e
    ∧ Event.name e = name ∧ Event.event_date e = d
    ∧ Forall2 (λ given stored,
                 stored = (if decide (given = Some EmptyString) then None
                           else given))
        [st; loc; fmt; url; descr] (optional_texts e).
Proof.
  intros Hparse. rewrite run_create_event, Hparse. cbv zeta.
  eexists. split; [reflexivity|]. cbn [Event.id Event.name Event.event_date].
  split_and!; try done.
  - intros e' He'. apply next_id_above. by apply list_elem_of_fmap_2.
  - apply next_id_pos.
  - unfold optional_texts. cbn.
    repeat constructor;
      match goal with |- Py.or_None ?x = _ => by destruct x as [[|? ?]|] end.
Qed.

Lemma create_event_inserts_witness :
  ∃ e,
    run (create_event "Cup" "2024-05-01" (Some "7:00 PM") (Some "") None None None)
      cup_created
    = ({| players := players cup_created; events := events cup_created ++ [e];
          results := results cup_created |},
       Returned (RedirectResponse ("/events/" +:+ pretty (Event.id e)) 303))
    ∧ (∀ e', e' ∈ events cup_created → Event.id e' < Event.id e)
    ∧ 0 < Event.id e
    ∧ Event.name e = "Cup" ∧ Event.event_date e = cup_date
    ∧ Forall2 (λ given stored,
                 stored = (if decide (given = Some EmptyString) then None
                           else given))
        [Some "7:00 PM"; Some ""; None; None; None] (optional_texts e).
Proof.
  apply (create_event_inserts cup_created "Cup" "2024-05-01"). reflexivity.
Defined.

(** X8. The admin form with a date that does not parse raises
    [ValueError] or [OverflowError] and writes nothing. *)
Theorem create_event_bad_date (db : DB) (name event_date : string)
    (st loc fmt url descr : option string) :
  (∀ d, parse_event_date event_date ≠ Returned d) →
  ∃ e,
    run (create_event name event_date st loc fmt url descr) db = (db, Raised e)
    ∧ (e = ValueError ∨ e = OverflowError).
Proof.
  intros Hbad. rewrite run_create_event.
  destruct (parse_event_date event_date) as [d|e] eqn:Hparse; [by destruct (Hbad d)|].
  exists e. split; [done|]. by apply (parse_event_date_raises event_date).
Qed.

Lemma create_event_bad_date_witness :
  ∃ e,
    run (create_event "Cup" "2024-02-30" None None None None None) spring_db
    = (spring_db, Raised e)
    ∧ (e = ValueError ∨ e = OverflowError).
Proof.
  apply (create_event_bad_date spring_db "Cup" "2024-02-30").
  intros d. vm_compute. discriminate.
Defined.

(** X9. An upload with a date that does not parse raises [ValueError] or
    [OverflowError] before anything is looked up or written: no event is
    created and the rows are not read. *)
Theorem upload_results_bad_date (db : DB) (event_name event_date : string)
    (file : list CsvRow.t) :
  (∀ d, parse_event_date event_date ≠ Returned d) →
  ∃ e,
    run (upload_results event_name event_date file) db = (db, Raised e)
    ∧ (e = ValueError ∨ e = OverflowError).
Proof.
  intros Hbad. unfold run, upload_results. rewrite bind_unfold. unfold lift.
  destruct (parse_event_date event_date) as [d|e] eqn:Hparse; [by destruct (Hbad d)|].
  exists e. split; [done|]. by apply (parse_event_date_raises event_date).
Qed.

Lemma upload_results_bad_date_witness :
  ∃ e,
    run (upload_results "Cup" "01/05/2024" cup_rows) spring_db
    = (spring_db, Raised e)
    ∧ (e = ValueError ∨ e = OverflowError).
Proof.
  apply (upload_results_bad_date spring_db "Cup" "01/05/2024").
  intros d. vm_compute. discriminate.
Defined.

(** X10. An event identity takes rows at most once.  After any upload
    whose date parses, whether it returned or raised, every further upload
    for the same name and date returns without a response and changes
    nothing, whatever its rows. *)
Theorem upload_results_once (db : DB) (event_name event_date : string)
    (file file' : list CsvRow.t) (d : date) :
  parse_event_date event_date = Returned d →
  run (upload_results event_name event_date file')
    (run (upload_results event_name event_date file) db).1
  = ((run (upload_results event_name event_date file) db).1, Returned None).
Proof.
  intros Hparse.
  destruct (upload_results_leaves_event db event_name event_date file d Hparse)
    as (e & He & Hn & Hd).
  by apply (run_upload_results_found _ _ _ _ d e).
Qed.

Lemma upload_results_once_witness :
  run (upload_results "Cup" "2024-05-01" spring_rows)
    (run (upload_results "Cup" "2024-05-01" cup_rows) empty_db).1
  = ((run (upload_results "Cup" "2024-05-01" cup_rows) empty_db).1, Returned None).
Proof.
  apply (upload_results_once empty_db "Cup" "2024-05-01" cup_rows spring_rows
           cup_date).
  reflexivity.
Defined.

(** X11. No stored event has an empty text in an optional column: where a
    form left a field empty, the column holds no text at all. *)
Theorem stored_optional_texts (db : DB) (e : Event.t) :
  reachable db → e ∈ events db →
  Event.start_time e ≠ Some EmptyString
  ∧ Event.location e ≠ Some EmptyString
  ∧ Event.format e ≠ Some EmptyString
  ∧ Event.registration_url e ≠ Some EmptyString
  ∧ Event.description e ≠ Some EmptyString.
Proof.
  intros (_ & [_ Hes] & _)%reachable_well_formed He.
  destruct (Hes e He) as [_ Htexts]. unfold optional_texts in Htexts.
  repeat (apply Forall_cons in Htexts as [? Htexts]). done.
Qed.

Lemma stored_optional_texts_witness :
  Event.start_time cup_event ≠ Some EmptyString
  ∧ Event.location cup_event ≠ Some EmptyString
  ∧ Event.format cup_event ≠ Some EmptyString
  ∧ Event.registration_url cup_event ≠ Some EmptyString
  ∧ Event.description cup_event ≠ Some EmptyString.
Proof.
  apply (stored_optional_texts cup_created cup_event).
  - unfold cup_created. apply reachable_create_event, reachable_empty.
  - apply list_elem_of_In. vm_compute. left. reflexivity.
Defined.

(** ** A position that does not fit its column *)

Section overflow.




End overflow.



(** ** The standings against the results *)

Section standings_totals.

Lemma sum_points_app (l1 l2 : list Result.t) :
  sum_points (l1 ++ l2) = sum_points l1 + sum_points l2.
Proof. unfold sum_points. induction l1 as [|r l1 IH]; simpl; lia. Qed.

Lemma sum_points_nonneg (rs : list Result.t) :
  (∀ r, r ∈ rs → 0 ≤ Result.points r) → 0 ≤ sum_points rs.
Proof.
  unfold sum_points. induction rs as [|r rs IH]; intros Hrs; simpl; [lia|].
  assert (0 ≤ Result.points r) by (apply Hrs, list_elem_of_here).
  assert (0 ≤ foldr (λ r acc, Result.points r + acc) 0 rs); [|lia].
  apply IH. intros r' Hr'. by apply Hrs, list_elem_of_further.
Qed.

Lemma total_points_app (l1 l2 : list (string * Z)) :
  total_points (l1 ++ l2) = total_points l1 + total_points l2.
Proof. unfold total_points. induction l1 as [|r l1 IH]; simpl; lia. Qed.

Global Instance total_points_Permutation : Proper ((≡ₚ) ==> (=)) total_points.
Proof.
  intros l1 l2 Hperm. unfold total_points.
  induction Hperm as [|r l1 l2 _ IH|r1 r2 l|l1 l2 l3 _ IH1 _ IH2]; simpl; lia.
Qed.

Lemma total_points_group_of (rs : list Result.t) (p : Player.t) :
  total_points (group_of rs p)
  = sum_points (filter (λ r, Result.player_id r = Player.id p) rs).
Proof.
  unfold group_of. destruct (filter _ rs) as [|r l]; [done|].
  unfold total_points. simpl. lia.
Qed.

Lemma total_points_groups (rs : list Result.t) (ps : list Player.t) :
  total_points (ps ≫= group_of rs)
  = foldr (λ p acc,
             sum_points (filter (λ r, Result.player_id r = Player.id p) rs) + acc)
      0 ps.
Proof.
  induction ps as [|p ps IH]; [done|].
  rewrite bind_cons, total_points_app, total_points_group_of, IH. done.
Qed.

(** One more result adds its points to the players it joins with. *)
Lemma totals_cons (r : Result.t) (rs : list Result.t) (ps : list Player.t) :
  foldr (λ p acc,
           sum_points (filter (λ r, Result.player_id r = Player.id p) (r :: rs))
           + acc) 0 ps
  = foldr (λ p acc,
             (if decide (Result.player_id r = Player.id p)
              then Result.points r else 0) + acc) 0 ps
    + foldr (λ p acc,
               sum_points (filter (λ r, Result.player_id r = Player.id p) rs)
               + acc) 0 ps.
Proof.
  induction ps as [|p ps IH]; [done|]. cbn [foldr]. rewrite IH, filter_cons.
  destruct (decide (Result.player_id r = Player.id p)); [|lia].
  change (sum_points (r :: ?l)) with (Result.points r + sum_points l). lia.
Qed.

(** With the primary key, a result joins with one player only. *)
Lemma totals_one_player (k v : Z) (ps : list Player.t) :
  NoDup (Player.id <$> ps) → k ∈ Player.id <$> ps →
  foldr (λ p acc, (if decide (k = Player.id p) then v else 0) + acc) 0 ps = v.
Proof.
  induction ps as [|p ps IH]; intros Hnodup Hk.
  - by apply elem_of_nil in Hk.
  - rewrite fmap_cons in Hnodup, Hk. apply NoDup_cons in Hnodup as [Hp Hnodup].
    cbn [foldr]. destruct (decide (k = Player.id p)) as [->|Hne].
    + assert (foldr (λ q acc, (if decide (Player.id p = Player.id q) then v else 0)
                              + acc) 0 ps = 0) as ->; [|lia].
      clear IH Hk Hnodup. induction ps as [|q ps IH]; [done|].
      rewrite fmap_cons, not_elem_of_cons in Hp. destruct Hp as [Hne Hp].
      cbn [foldr]. rewrite decide_False by done. rewrite IH by done. done.
    + apply elem_of_cons in Hk as [?|Hk]; [done|]. rewrite IH by done. lia.
Qed.

Lemma totals_all_results (rs : list Result.t) (ps : list Player.t) :
  NoDup (Player.id <$> ps) →
  (∀ r, r ∈ rs → ∃ p, p ∈ ps ∧ Player.id p = Result.player_id r) →
  foldr (λ p acc,
           sum_points (filter (λ r, Result.player_id r = Player.id p) rs) + acc)
    0 ps
  = sum_points rs.
Proof.
  intros Hnodup. induction rs as [|r rs IH]; intros Hfk.
  - clear Hnodup Hfk. induction ps as [|p ps IHps]; [done|]. cbn [foldr].
    by rewrite IHps.
  - rewrite totals_cons, IH.
    + rewrite totals_one_player; [done|done|].
      destruct (Hfk r) as (p & Hp & <-); [apply list_elem_of_here|].
      by apply list_elem_of_fmap_2.
    + intros r' Hr'. by apply Hfk, list_elem_of_further.
Qed.

End standings_totals.

(** X13. The standings hand out exactly the points of the results: the
    totals of all rows of the standings add up to the points of all stored
    results. *)
Theorem read_standings_conserves_points (db : DB) :
  reachable db →
  ∃ standings,
    run read_standings db = (db, Returned standings)
    ∧ total_points standings = sum_points (results db).
Proof.
  intros Hdb%reachable_consistent. eexists. split; [apply run_read_standings|].
  rewrite merge_sort_Permutation, standings_groups_bind, total_points_groups.
  apply totals_all_results; apply Hdb.
Qed.

Lemma read_standings_conserves_points_witness :
  ∃ standings,
    run read_standings tie_db = (tie_db, Returned standings)
    ∧ total_points standings = sum_points (results tie_db).
Proof.
  apply (read_standings_conserves_points tie_db).
  unfold tie_db. apply reachable_upload_results, reachable_upload_results,
    reachable_empty.
Defined.

(** X14. In the standings of a database the program produced, no name
    occurs twice, no total is negative, and there are at most as many rows
    as players. *)
Theorem read_standings_rows (db : DB) :
  reachable db →
  ∃ standings,
    run read_standings db = (db, Returned standings)
    ∧ NoDup (standings.*1)
    ∧ (∀ name total, (name, total) ∈ standings → 0 ≤ total)
    ∧ (length standings ≤ length (players db))%nat.
Proof.
  intros Hdb%reachable_consistent. eexists. split; [apply run_read_standings|].
  split_and!.
  - rewrite merge_sort_Permutation, standings_groups_names.
    apply (sublist_NoDup _ (Player.name <$> players db)); [apply Hdb|].
    apply fmap_sublist, sublist_filter.
  - intros name total. rewrite merge_sort_Permutation.
    intros (p & _ & _ & _ & ->)%standings_groups_elem.
    apply sum_points_nonneg. intros r [_ Hr]%list_elem_of_filter.
    rewrite (result_points_scored db Hdb r Hr). apply points_for_nonneg.
  - rewrite merge_sort_Permutation, <- (length_fmap fst), standings_groups_names.
    rewrite length_fmap. apply length_filter.
Qed.

Lemma read_standings_rows_witness :
  ∃ standings,
    run read_standings tie_db = (tie_db, Returned standings)
    ∧ NoDup (standings.*1)
    ∧ (∀ name total, (name, total) ∈ standings → 0 ≤ total)
    ∧ (length standings ≤ length (players tie_db))%nat.
Proof.
  apply (read_standings_rows tie_db).
  unfold tie_db. apply reachable_upload_results, reachable_upload_results,
    reachable_empty.
Defined.

(** ** An upload, then the pages *)

Section after_upload.

Lemma unique_column_inj {A K : Type} `{EqDecision K} (f : A → K) (l : list A)
    (x y : A) :
  NoDup (f <$> l) → x ∈ l → y ∈ l → f x = f y → x = y.
Proof.
  intros Hnodup Hx Hy Hxy.
  assert (y ∈ filter (λ z, f z = f x) l) as Hin by by apply list_elem_of_filter.
  rewrite (filter_key_singleton f x l Hnodup Hx) in Hin.
  by apply list_elem_of_singleton in Hin.
Qed.

Lemma filter_none {A} (P : A → Prop) `{∀ x, Decision (P x)} (l : list A) :
  (∀ x, x ∈ l → ¬ P x) → filter P l = [].
Proof.
  induction l as [|x l IH]; intros Hl; [done|].
  rewrite filter_cons, decide_False by apply Hl, list_elem_of_here.
  apply IH. intros y Hy. by apply Hl, list_elem_of_further.
Qed.

Lemma filter_all {A} (P : A → Prop) `{∀ x, Decision (P x)} (l : list A) :
  (∀ x, x ∈ l → P x) → filter P l = l.
Proof.
  induction l as [|x l IH]; intros Hl; [done|].
  rewrite filter_cons, decide_True by apply Hl, list_elem_of_here.
  f_equal. apply IH. intros y Hy. by apply Hl, list_elem_of_further.
Qed.

(** The points a batch gives a player, read off the stored results. *)
Lemma batch_points_ingested (event_id : Z) (ps : list Player.t) (p : Player.t)
    (file : list CsvRow.t) (rs : list Result.t) :
  NoDup (Player.id <$> ps) → NoDup (Player.name <$> ps) → p ∈ ps →
  Forall2 (ingested event_id ps) file rs →
  sum_points (filter (λ r, Result.player_id r = Player.id p) rs)
  = batch_points (Player.name p) file.
Proof.
  intros Hids Hnames Hp Hing.
  induction Hing as [|row r file rs (q & Hq & Hname & Hid & _ & Hint & Hpts) _ IH];
    [done|].
  cbn [batch_points]. rewrite filter_cons, <- IH, Hint. cbn [default].
  destruct (decide (Result.player_id r = Player.id p)) as [Hrp|Hrp];
    destruct (decide (Py.strip (CsvRow.player row) = Player.name p)) as [Hnp|Hnp].
  - change (sum_points (r :: ?l)) with (Result.points r + sum_points l).
    by rewrite Hpts.
  - exfalso. apply Hnp. rewrite <- Hname. f_equal.
    apply (unique_column_inj Player.id ps); [done..|congruence].
  - exfalso. apply Hrp. rewrite Hid. f_equal.
    apply (unique_column_inj Player.name ps); [done..|congruence].
  - lia.
Qed.

Lemma ingested_event_id (event_id : Z) (ps : list Player.t)
    (file : list CsvRow.t) (rs : list Result.t) :
  Forall2 (ingested event_id ps) file rs →
  ∀ r, r ∈ rs → Result.event_id r = event_id.
Proof.
  induction 1 as [|row r' file rs (_ & _ & _ & _ & Hev & _) _ IH]; intros r Hr.
  - by apply elem_of_nil in Hr.
  - apply elem_of_cons in Hr as [->|Hr]; [done|by apply IH].
Qed.

Lemma results_of_fresh_event (db : DB) :
  well_formed db →
  ∀ r, r ∈ results db → Result.event_id r ≠ next_id (Event.id <$> events db).
Proof.
  intros (_ & _ & [_ Hrs]) r Hr Heq.
  destruct (Hrs r Hr) as [(e & He & Hid) _].
  apply (next_id_fresh (Event.id <$> events db)).
  rewrite <- Heq, <- Hid. by apply list_elem_of_fmap_2.
Qed.

Lemma find_fresh_event (es : list Event.t) (e : Event.t) :
  Event.id e = next_id (Event.id <$> es) →
  head (filter (λ e', Event.id e' = next_id (Event.id <$> es)) (es ++ [e]))
  = Some e.
Proof.
  intros Hid. rewrite filter_app, (filter_key_absent Event.id).
  - by rewrite filter_cons, decide_True.
  - apply next_id_fresh.
Qed.

End after_upload.

(** X15. A successful upload for a new identity raises each player's
    total in the standings by the points of that player's rows in the
    batch, and changes nothing else: a player without a row keeps the
    total, and a player listed in several rows gets the points of all of
    them. *)
Theorem upload_results_raises_totals (db : DB) (event_name event_date : string)
    (ev_date : date) (file : list CsvRow.t) (p : Player.t) :
  reachable db →
  parse_event_date event_date = Returned ev_date →
  (∀ e, e ∈ events db →
        ¬ (Event.name e = event_name ∧ Event.event_date e = ev_date)) →
  Forall accepted file →
  p ∈ players (run (upload_results event_name event_date file) db).1 →
  total_of (run (upload_results event_name event_date file) db).1 p
  = total_of db p + batch_points (Player.name p) file.
Proof.
  intros Hdb Hparse Hnew Hfile.
  pose proof (reachable_consistent _
                (reachable_upload_results db event_name event_date file Hdb))
    as Hdb'.
  destruct (upload_results_all_accepted db event_name event_date ev_date
              Hparse Hnew file Hfile) as (db' & rs & Hrun & _ & _ & Hrs & Hing).
  rewrite Hrun in Hdb' |- *. cbn [fst] in Hdb' |- *. intros Hp.
  unfold total_of. rewrite Hrs, filter_app, sum_points_app. f_equal.
  eapply (batch_points_ingested _ (players db')); [apply Hdb'|apply Hdb'|done|].
  exact Hing.
Qed.

Lemma upload_results_raises_totals_witness :
  total_of
    (run (upload_results "Summer Open" "2024-07-01"
            [CsvRow.mk "Bob" "3"; CsvRow.mk "Dan" "1"; CsvRow.mk " Bob" "12"])
       spring_db).1 (Player.mk 2 "Bob")
  = total_of spring_db (Player.mk 2 "Bob")
    + batch_points "Bob"
        [CsvRow.mk "Bob" "3"; CsvRow.mk "Dan" "1"; CsvRow.mk " Bob" "12"].
Proof.
  apply (upload_results_raises_totals spring_db "Summer Open" "2024-07-01"
           (Date 2024 7 1) _ (Player.mk 2 "Bob")).
  - unfold spring_db. apply reachable_upload_results, reachable_empty.
  - reflexivity.
  - intros e He [Hn _]. apply list_elem_of_In in He. vm_compute in He.
    destruct He as [<-|[]]. discriminate.
  - repeat constructor.
    + by apply (accepted_literal _ _ 3).
    + by apply (accepted_literal _ _ 1).
    + by apply (accepted_literal _ _ 12).
  - apply list_elem_of_In. vm_compute. right. left. reflexivity.
Defined.

(** X16. After a successful upload for a new identity, the page of the new
    event shows that event with the results of the batch, one per row of
    the file and no other, in ascending order of position. *)
Theorem upload_results_then_event_detail (db : DB)
    (event_name event_date : string) (ev_date : date) (file : list CsvRow.t) :
  reachable db →
  parse_event_date event_date = Returned ev_date →
  (∀ e, e ∈ events db →
        ¬ (Event.name e = event_name ∧ Event.event_date e = ev_date)) →
  Forall accepted file →
  ∃ db' ev rows rs,
    run (upload_results event_name event_date file) db
    = (db', Returned (Some (RedirectResponse "/" 303)))
    ∧ run (event_detail (next_id (Event.id <$> events db))) db'
      = (db', Returned (ev, rows))
    ∧ Event.name ev = event_name ∧ Event.event_date ev = ev_date
    ∧ rows.*1 ≡ₚ rs
    ∧ Forall2 (ingested (next_id (Event.id <$> events db)) (players db')) file rs
    ∧ StronglySorted position_le rows.
Proof.
  intros Hdb Hparse Hnew Hfile.
  pose proof (reachable_consistent _
                (reachable_upload_results db event_name event_date file Hdb))
    as Hdb'.
  apply reachable_well_formed in Hdb.
  destruct (upload_results_all_accepted db event_name event_date ev_date
              Hparse Hnew file Hfile) as (db' & rs & Hrun & Hes & _ & Hrs & Hing).
  rewrite Hrun in Hdb'. cbn [fst Event.id] in Hdb', Hing.
  eexists db', _, _, rs. split; [done|].
  rewrite run_event_detail, Hes, find_fresh_event by done.
  split; [reflexivity|]. split_and!; try done.
  - rewrite merge_sort_Permutation, fst_filter_event.
    rewrite join_player_results; [|apply Hdb'|apply Hdb'].
    rewrite Hrs, filter_app, filter_none, filter_all; [done| |].
    + intros r Hr. by apply (ingested_event_id _ _ _ _ Hing).
    + by apply results_of_fresh_event.
  - apply StronglySorted_merge_sort; apply _.
Qed.

Lemma upload_results_then_event_detail_witness :
  ∃ db' ev rows rs,
    run (upload_results "Summer Open" "2024-07-01"
           [CsvRow.mk "Bob" "3"; CsvRow.mk "Dan" "1"]) spring_db
    = (db', Returned (Some (RedirectResponse "/" 303)))
    ∧ run (event_detail (next_id (Event.id <$> events spring_db))) db'
      = (db', Returned (ev, rows))
    ∧ Event.name ev = "Summer Open" ∧ Event.event_date ev = Date 2024 7 1
    ∧ rows.*1 ≡ₚ rs
    ∧ Forall2 (ingested (next_id (Event.id <$> events spring_db)) (players db'))
        [CsvRow.mk "Bob" "3"; CsvRow.mk "Dan" "1"] rs
    ∧ StronglySorted position_le rows.
Proof.
  apply (upload_results_then_event_detail spring_db "Summer Open" "2024-07-01"
           (Date 2024 7 1)).
  - unfold spring_db. apply reachable_upload_results, reachable_empty.
  - reflexivity.
  - intros e He [Hn _]. apply list_elem_of_In in He. vm_compute in He.
    destruct He as [<-|[]]. discriminate.
  - repeat constructor.
    + by apply (accepted_literal _ _ 3).
    + by apply (accepted_literal _ _ 1).
Defined.

(** X17. The redirect of the admin form leads to a page that exists: the
    page of the id it names shows the event just created, with no results,
    and not the 404. *)
Theorem create_event_then_event_detail (db : DB) (name event_date : string)
    (st loc fmt url descr : option string) (d : date) :
  reachable db →
  parse_event_date event_date = Returned d →
  ∃ db' e,
    run (create_event name event_date st loc fmt url descr) db
    = (db', Returned (RedirectResponse ("/events/" +:+ pretty (Event.id e)) 303))
    ∧ run (event_detail (Event.id e)) db' = (db', Returned (e, []))
    ∧ Event.name e = name ∧ Event.event_date e = d.
Proof.
  intros Hdb%reachable_well_formed Hparse.
  rewrite run_create_event, Hparse. cbv zeta.
  eexists _, _. split; [reflexivity|]. split; [|done].
  rewrite run_event_detail. cbn [events players results Event.id].
  rewrite find_fresh_event by done. do 2 f_equal.
  rewrite filter_none; [done|].
  intros [r p] [Hr _]%join_player_elem. by apply results_of_fresh_event.
Qed.

Lemma create_event_then_event_detail_witness :
  ∃ db' e,
    run (create_event "Cup" "2024-05-01" None (Some "Free Play") None None None)
      spring_db
    = (db', Returned (RedirectResponse ("/events/" +:+ pretty (Event.id e)) 303))
    ∧ run (event_detail (Event.id e)) db' = (db', Returned (e, []))
    ∧ Event.name e = "Cup" ∧ Event.event_date e = cup_date.
Proof.
  apply (create_event_then_event_detail spring_db "Cup" "2024-05-01").
  - unfold spring_db. apply reachable_upload_results, reachable_empty.
  - reflexivity.
Defined.

(** X18. An event entered through the admin form is listed at once: as
    upcoming when its date is today or later, as past when its date is
    before today, and never in both lists. *)
Theorem create_event_then_read_events (db : DB) (name event_date : string)
    (st loc fmt url descr : option string) (d today : date) :
  parse_event_date event_date = Returned d →
  ∃ e upcoming past,
    events (run (create_event name event_date st loc fmt url descr) db).1
    = events db ++ [e]
    ∧ Event.name e = name ∧ Event.event_date e = d
    ∧ (run (read_events today)
         (run (create_event name event_date st loc fmt url descr) db).1).2
      = Returned (upcoming, past)
    ∧ (date_le today d → e ∈ upcoming ∧ e ∉ past)
    ∧ (date_lt d today → e ∈ past ∧ e ∉ upcoming).
Proof.
  intros Hparse. rewrite run_create_event, Hparse. cbv zeta. cbn [fst events].
  eexists _, _, _. split; [reflexivity|]. split; [done|]. split; [done|].
  rewrite run_read_events. cbn [snd events]. split; [reflexivity|].
  split; intros Hd; split.
  - rewrite merge_sort_Permutation. apply list_elem_of_filter. split; [done|].
    apply elem_of_app. right. apply list_elem_of_here.
  - rewrite merge_sort_Permutation. intros [Hlt _]%list_elem_of_filter.
    by apply date_lt_not_le in Hlt.
  - rewrite merge_sort_Permutation. apply list_elem_of_filter. split; [done|].
    apply elem_of_app. right. apply list_elem_of_here.
  - rewrite merge_sort_Permutation. intros [Hle _]%list_elem_of_filter.
    by apply date_lt_not_le in Hd.
Qed.

Lemma create_event_then_read_events_witness :
  ∃ e upcoming past,
    events (run (create_event "Cup" "2024-05-01" None None None None None)
              spring_db).1
    = events spring_db ++ [e]
    ∧ Event.name e = "Cup" ∧ Event.event_date e = cup_date
    ∧ (run (read_events cup_date)
         (run (create_event "Cup" "2024-05-01" None None None None None)
            spring_db).1).2
      = Returned (upcoming, past)
    ∧ (date_le cup_date cup_date → e ∈ upcoming ∧ e ∉ past)
    ∧ (date_lt cup_date cup_date → e ∈ past ∧ e ∉ upcoming).
Proof.
  apply (create_event_then_read_events spring_db "Cup" "2024-05-01").
  reflexivity.
Defined.

(** X19. The scoring table rewards a better place: a position in 1..10
    scores more than every later position, and a position scores at all
    exactly when it is in 1..10. *)
Theorem points_for_order (p q : Z) :
  (1 ≤ p < q → p ≤ 10 → points_for q < points_for p)
  ∧ (0 < points_for p ↔ 1 ≤ p ≤ 10).
Proof.
  assert (∀ x, 1 ≤ x ≤ 10 →
               x = 1 ∨ x = 2 ∨ x = 3 ∨ x = 4 ∨ x = 5 ∨ x = 6 ∨ x = 7
               ∨ x = 8 ∨ x = 9 ∨ x = 10) as Hcases by (intros; lia).
  split.
  - intros Hpq Hp. destruct (decide (q ≤ 10)) as [Hq|Hq].
    + destruct (Hcases p ltac:(lia)) as [->|[->|[->|[->|[->|[->|[->|[->|[->| ->]]]]]]]]];
        destruct (Hcases q ltac:(lia)) as [->|[->|[->|[->|[->|[->|[->|[->|[->| ->]]]]]]]]];
        try lia; by vm_compute.
    + rewrite (points_for_outside q) by lia.
      destruct (Hcases p ltac:(lia)) as [->|[->|[->|[->|[->|[->|[->|[->|[->| ->]]]]]]]]];
        by vm_compute.
  - split.
    + intros Hpos. destruct (decide (1 ≤ p ≤ 10)) as [|Hout]; [done|].
      rewrite points_for_outside in Hpos by lia. lia.
    + intros Hp.
      destruct (Hcases p Hp) as [->|[->|[->|[->|[->|[->|[->|[->|[->| ->]]]]]]]]];
        by vm_compute.
Qed.

Lemma points_for_order_witness :
  points_for 4 < points_for 2 ∧ points_for 11 < points_for 10.
Proof.
  split.
  - apply (points_for_order 2 4); lia.
  - apply (points_for_order 10 11); lia.
Defined.

(** X20. An upload without rows is not refused: for a new identity it
    stores the event, with no optional text, and nothing else, and returns
    the redirect to the standings. *)
Theorem upload_results_no_rows (db : DB) (event_name event_date : string)
    (ev_date : date) :
  parse_event_date event_date = Returned ev_date →
  (∀ e, e ∈ events db →
        ¬ (Event.name e = event_name ∧ Event.event_date e = ev_date)) →
  run (upload_results event_name event_date []) db
  = ({| players := players db;
        events := events db
                  ++ [Event.mk (next_id (Event.id <$> events db)) event_name
                        ev_date None None None None None];
        results := results db |},
     Returned (Some (RedirectResponse "/" 303))).
Proof.
  intros Hparse Hnew. unfold run.
  by rewrite (upload_results_new_event_unfold db _ _ [] _ Hparse Hnew).
Qed.

Lemma upload_results_no_rows_witness :
  run (upload_results "Cup" "2024-05-01" []) spring_db
  = ({| players := players spring_db;
        events := events spring_db
                  ++ [Event.mk (next_id (Event.id <$> events spring_db)) "Cup"
                        cup_date None None None None None];
        results := results spring_db |},
     Returned (Some (RedirectResponse "/" 303))).
Proof.
  apply (upload_results_no_rows spring_db "Cup" "2024-05-01" cup_date).
  - reflexivity.
  - intros e He [Hn _]. apply list_elem_of_In in He. vm_compute in He.
    destruct He as [<-|[]]. discriminate.
Defined.


